(** * co2mond: the polling, decoding, de-duplication and dispatch loop

    A shallow embedding of [co2mond/src/main.c].  The daemon reads 8-byte
    frames from a CO2 sensor, validates them, and forwards changed values
    either to flat files in a data directory or to an InfluxDB endpoint.

    The outside world (libc, the device transport of [co2mon.h], the HTTP
    poster of [influxdb.h]) is modelled by a trace of the calls the program
    makes, together with an oracle that supplies the value each call
    returns. *)

From Stdlib Require Import ZArith Ascii String Strings.Byte Floats Uint63 DecimalString.
From Stdlib Require DecimalFacts DecimalPos.
From stdpp Require Import base tactics option numbers list strings.

Local Open Scope Z_scope.

(** ** Constants of the source *)

Definition CODE_TAMB : Z := 0x42. (* Ambient Temperature *)
Definition CODE_CNTR : Z := 0x50. (* Relative Concentration of CO2 *)

Definition PATH_MAX : nat := 4096.
Definition VALUE_MAX : nat := 20.

(** ** C integer conversions *)

Definition to_uchar (z : Z) : Z := z mod 256.
Definition to_uint16 (z : Z) : Z := z mod 65536.

(** Conversion to [long long]: two's complement wrap-around on 64 bits. *)
Definition to_llong (z : Z) : Z := (z + 2 ^ 63) mod 2 ^ 64 - 2 ^ 63.

(** ** Text produced by the printf family *)

Definition LF : string := String "010"%char EmptyString.
Definition TAB : string := String "009"%char EmptyString.

(** [snprintf(buf, size, ...)] keeps at most [size - 1] characters. *)
Definition snprintf (size : nat) (s : string) : string :=
  String.substring 0 (size - 1) s.

(** [%d] and [%lld]. *)
Definition fmt_d (z : Z) : string := NilZero.string_of_int (Z.to_int z).

Definition hex_digit (z : Z) : ascii :=
  if z <? 10 then ascii_of_nat (Z.to_nat (48 + z))
  else ascii_of_nat (Z.to_nat (87 + z)).

(** [%02hhx]: the argument is converted to [unsigned char] and printed as
    two lower-case hexadecimal digits. *)
Definition fmt_02hhx (z : Z) : string :=
  let b := to_uchar z in
  String (hex_digit (b / 16)) (String (hex_digit (b mod 16)) EmptyString).

Definition dec_digit (z : Z) : ascii := ascii_of_nat (Z.to_nat (48 + z mod 10)).

(** The four digits after the decimal point. *)
Definition frac4 (n : Z) : string :=
  String (dec_digit (n / 1000))
    (String (dec_digit (n / 100))
       (String (dec_digit (n / 10))
          (String (dec_digit n) EmptyString))).

(** A sign and a magnitude [n] counted in ten-thousandths, printed in
    fixed-point notation with four decimals. *)
Definition fixed4 (neg : bool) (n : Z) : string :=
  (if neg then "-" else "") +:+ fmt_d (n / 10000) +:+ "." +:+ frac4 (n mod 10000).

(** Nearest integer to [num / den], ties to even. *)
Definition round_half_even (num den : Z) : Z :=
  let q := num / den in
  let r := num mod den in
  match 2 * r ?= den with
  | Lt => q
  | Gt => q + 1
  | Eq => if Z.even q then q else q + 1
  end.

(** The magnitude [m * 2^e] of a finite double, in ten-thousandths, rounded
    as printf does (exact decimal expansion, round to nearest even). *)
Definition scaled4 (m : positive) (e : Z) : Z :=
  if 0 <=? e then Z.pos m * 2 ^ e * 10000
  else round_half_even (Z.pos m * 10000) (2 ^ (- e)).

(** [%.4f] applied to a double. *)
Definition fmt_4f (x : float) : string :=
  match Prim2SF x with
  | S754_zero s => fixed4 s 0
  | S754_infinity s => if s then "-inf" else "inf"
  | S754_nan => "nan"
  | S754_finite s m e => fixed4 s (scaled4 m e)
  end.

(** ** decode_temperature (main.c, lines 63-67) *)

(** [(double)w] for a [uint16_t] is exact. *)
Definition double_of_uint16 (w : Z) : float := PrimFloat.of_uint63 (Uint63.of_Z w).

(** The literal [273.15] denotes the nearest double, 0x1.1126666666666p+8. *)
#[warnings="-inexact-float"]
Definition decode_temperature (w : Z) : float :=
  (double_of_uint16 w * 0.0625 - 273.15)%float.

(** ** The outside world *)

Inductive lock_type := F_WRLCK | F_UNLCK.

(** The variadic arguments of [post_http] (macros of influxdb.h).  The
    field macros carry the string that [atof] or [atoi] is applied to. *)
Inductive influx_arg :=
| INFLUX_MEAS (m : string)
| INFLUX_F_FLT (k : string) (atof_of : string) (prec : Z)
| INFLUX_F_INT (k : string) (atoi_of : string)
| INFLUX_TS (ts : Z)
| INFLUX_END.

(** One constructor per call that leaves the program. *)
Inductive event :=
| Ev_printf (s : string)              (* printf, fflush(stdout) *)
| Ev_stderr (s : string)              (* fprintf(stderr, ...) *)
| Ev_perror (s : string)
| Ev_open (filename : string)         (* open(filename, O_CREAT | O_WRONLY, 0666) *)
| Ev_fcntl (fd : Z) (type : lock_type) (* fcntl(fd, F_SETLKW, &lock) *)
| Ev_ftruncate (fd : Z)               (* ftruncate(fd, 0) *)
| Ev_write (fd : Z) (data : string)
| Ev_close (fd : Z)
| Ev_time                             (* time(0) *)
| Ev_post_http (args : list influx_arg)
| Ev_sleep (seconds : Z)
| Ev_open_device (path : option string)
| Ev_send_magic_table
| Ev_read_data
| Ev_close_device.

(** [co2mon_data_t] of co2mon.h: an array of [unsigned char]. *)
Definition co2mon_data_t := list byte.

(** [result[i]], promoted to [int]. *)
Definition at_index (result : co2mon_data_t) (i : nat) : Z :=
  from_option (fun b => Z.of_N (Byte.to_N b)) 0 (result !! i).

(** The program state: the global array [uint16_t co2mon_data[256]] and
    the number of oracle-answered calls made so far. *)
Record state := State { co2mon_data : list Z; calls : nat }.

(** Globals have static storage: every entry starts at zero. *)
Definition initial_state : state := State (replicate 256 0) 0.

(** Computations: read the state, produce a value, a new state and the
    events emitted on the way. *)
Definition M (A : Type) : Type := state -> A * state * list event.

#[global] Instance M_ret : MRet M := fun A (a : A) s => (a, s, []).

#[global] Instance M_bind : MBind M := fun A B (f : A -> M B) (m : M A) s =>
  let '(a, s1, ev1) := m s in
  let '(b, s2, ev2) := f a s1 in
  (b, s2, ev1 ++ ev2).

Definition value_of {A} (r : A * state * list event) : A := r.1.1.
Definition state_of {A} (r : A * state * list event) : state := r.1.2.
Definition events_of {A} (r : A * state * list event) : list event := r.2.

(** A call whose result the program ignores. *)
Definition emit (e : event) : M unit := fun s => (tt, s, [e]).

(** [co2mon_data[r0]] and [co2mon_data[r0] = w]. *)
Definition load (r0 : Z) : M Z := fun s => (co2mon_data s !!! Z.to_nat r0, s, []).

Definition store (r0 w : Z) : M unit := fun s =>
  (tt, State (<[Z.to_nat r0 := w]> (co2mon_data s)) (calls s), []).

(** Process-wide settings, fixed by [main] before [main_loop] starts. *)
Record globals := Globals {
  daemonize : bool;
  print_unknown : bool;
  devicefile : option string;
  datadir : option string;
  influx_db : option string
}.

(** The scripted behaviour of an opened device: whether it accepts the
    magic table, and what each successive [co2mon_read_data] returns (the
    status and the contents of [result]). *)
Record device := Device {
  magic_table_ok : bool;
  frames : list (Z * co2mon_data_t)
}.

(** Where control leaves one iteration of the read loop. *)
Inductive body_exit :=
| Continue_sentinel   (* continue, line 190 *)
| Continue_checksum   (* continue, line 202 *)
| Body_end.           (* end of the switch *)

(** How far a session got on its script. *)
Inductive session_end :=
| Not_armed        (* return, line 175 *)
| Closed           (* break, line 184 *)
| Awaiting_read.   (* still blocked in co2mon_read_data *)

Inductive supervisor_end :=
| Connecting (error_shown : bool)   (* about to call open_device *)
| In_session.                       (* device_loop has not returned *)

Section Program.

Variable g : globals.

(** [returns n] is what the [n]-th oracle-answered call returns. *)
Variable returns : nat -> Z.

(** [indeterminate n] is what a caller reads, after [n] calls, from a
    non-void function that ended without a [return] statement. *)
Variable indeterminate : nat -> Z.

Definition call (e : event) : M Z := fun s =>
  (returns (calls s), State (co2mon_data s) (S (calls s)), [e]).

Definition no_return_value : M Z := fun s => (indeterminate (calls s), s, []).

(** lock (lines 52-61) *)
Definition lock (fd : Z) (type : lock_type) : M Z := call (Ev_fcntl fd type).

(** write_data (lines 69-101) *)
Definition write_data (fd : Z) (value : string) : M Z :=
  let data := snprintf (VALUE_MAX + 1) (value +:+ LF) in
  r ← lock fd F_WRLCK;
  if negb (r =? 0) then emit (Ev_perror "lock");; mret 0 else
  r ← call (Ev_ftruncate fd);
  if negb (r =? 0) then emit (Ev_perror "ftruncate");; mret 0 else
  let len := Z.of_nat (String.length data) in
  r ← call (Ev_write fd data);
  if negb (r =? len) then emit (Ev_perror "write");; mret 0 else
  r ← lock fd F_UNLCK;
  if negb (r =? 0) then emit (Ev_perror "unlock");; mret 0 else
  mret 1.

(** write_value (lines 103-124) *)
Definition write_value (name value : string) : M Z :=
  match datadir g with
  | None => mret 1
  | Some dir =>
      let filename := snprintf PATH_MAX (dir +:+ "/" +:+ name) in
      fd ← call (Ev_open filename);
      if fd =? -1 then emit (Ev_perror filename);; mret 0 else
      result ← write_data fd value;
      emit (Ev_close fd);;
      mret result
  end.

(** write_temperature_influx (lines 126-140).  The body ends after the
    call to [post_http]: there is no [return]. *)
Definition write_temperature_influx (value : string) : M Z :=
  t ← call Ev_time;
  let timestamp := to_llong (to_llong t * 1000000000) in
  call (Ev_post_http [INFLUX_MEAS "temp"; INFLUX_F_FLT "value" value 4;
                      INFLUX_TS timestamp; INFLUX_END]);;
  no_return_value.

(** write_co2_influx (lines 142-156), likewise without [return]. *)
Definition write_co2_influx (value : string) : M Z :=
  t ← call Ev_time;
  let timestamp := to_llong (to_llong t * 1000000000) in
  call (Ev_post_http [INFLUX_MEAS "co2"; INFLUX_F_INT "value" value;
                      INFLUX_TS timestamp; INFLUX_END]);;
  no_return_value.

(** write_heartbeat (lines 158-164) *)
Definition write_heartbeat : M unit :=
  t ← call Ev_time;
  let buf := snprintf VALUE_MAX (fmt_d (to_llong t)) in
  write_value "heartbeat" buf;;
  mret tt.

(** device_loop, case CODE_TAMB (lines 210-245) *)
Definition case_TAMB (r0 w : Z) : M unit :=
  let buf := snprintf VALUE_MAX (fmt_4f (decode_temperature w)) in
  (if negb (daemonize g) then emit (Ev_printf ("Tamb" +:+ TAB +:+ buf +:+ LF))
   else mret tt);;
  old ← load r0;
  (if negb (old =? w) then
     if influx_db g is Some _ then
       r ← write_temperature_influx buf;
       if negb (r =? 0) then store r0 w else mret tt (* TODO: write to spool file *)
     else
       r ← write_value "Tamb" buf;
       if negb (r =? 0) then store r0 w else mret tt
   else mret tt);;
  (if influx_db g is Some _ then mret tt else write_heartbeat).

(** device_loop, case CODE_CNTR (lines 246-286) *)
Definition case_CNTR (r0 w : Z) : M unit :=
  if 3000 <? w then mret tt (* Avoid reading spurious (uninitialized?) data *) else
  let buf := snprintf VALUE_MAX (fmt_d w) in
  (if negb (daemonize g) then emit (Ev_printf ("CntR" +:+ TAB +:+ buf +:+ LF))
   else mret tt);;
  old ← load r0;
  (if negb (old =? w) then
     if influx_db g is Some _ then
       r ← write_co2_influx buf;
       if negb (r =? 0) then store r0 w else mret tt (* TODO: write to spool file *)
     else
       r ← write_value "CntR" buf;
       if negb (r =? 0) then store r0 w else mret tt
   else mret tt);;
  (if influx_db g is Some _ then mret tt else write_heartbeat).

(** device_loop, default case (lines 287-293) *)
Definition case_default (r0 w : Z) : M unit :=
  (if print_unknown g && negb (daemonize g)
   then emit (Ev_printf ("0x" +:+ fmt_02hhx r0 +:+ TAB +:+ fmt_d w +:+ LF))
   else mret tt);;
  store r0 w.

(** device_loop, one iteration after a successful read (lines 187-294) *)
Definition loop_body (result : co2mon_data_t) : M body_exit :=
  if negb (at_index result 4 =? 0x0d) then
    emit (Ev_stderr ("Unexpected data from device (data[4] = "
                     +:+ fmt_02hhx (at_index result 4) +:+ ", want 0x0d)" +:+ LF));;
    mret Continue_sentinel
  else
  let r0 := to_uchar (at_index result 0) in
  let r1 := to_uchar (at_index result 1) in
  let r2 := to_uchar (at_index result 2) in
  let r3 := to_uchar (at_index result 3) in
  let checksum := to_uchar (r0 + r1 + r2) in
  if negb (checksum =? r3) then
    emit (Ev_stderr ("checksum error (" +:+ fmt_02hhx checksum +:+ ", await "
                     +:+ fmt_02hhx r3 +:+ ")" +:+ LF));;
    mret Continue_checksum
  else
  let w := to_uint16 (Z.shiftl (at_index result 1) 8 + at_index result 2) in
  (if r0 =? CODE_TAMB then case_TAMB r0 w
   else if r0 =? CODE_CNTR then case_CNTR r0 w
   else case_default r0 w);;
  mret Body_end.

(** device_loop, the [while (1)] (lines 178-295), run on a script of
    read results. *)
Fixpoint read_loop (reads : list (Z * co2mon_data_t)) : M session_end :=
  match reads with
  | [] => mret Awaiting_read
  | (r, result) :: rest =>
      emit Ev_read_data;;
      if r <=? 0 then
        emit (Ev_stderr ("Error while reading data from device" +:+ LF));;
        mret Closed
      else
        loop_body result;;
        read_loop rest
  end.

(** device_loop (lines 166-296) *)
Definition device_loop (dev : device) : M session_end :=
  emit Ev_send_magic_table;;
  if negb (magic_table_ok dev) then
    emit (Ev_stderr ("Unable to send magic table to CO2 device" +:+ LF));;
    mret Not_armed
  else read_loop (frames dev).

(** open_device (lines 298-306): both branches ask the transport to
    open a device; the script says whether it yields one. *)
Definition open_device : M unit := emit (Ev_open_device (devicefile g)).

(** main_loop (lines 308-334), run on a script of open outcomes:
    [None] stands for [dev == NULL]. *)
Fixpoint main_loop_from (error_shown : bool) (opens : list (option device))
  : M supervisor_end :=
  match opens with
  | [] => mret (Connecting error_shown)
  | None :: rest =>
      open_device;;
      (if negb error_shown
       then emit (Ev_stderr ("Unable to open CO2 device" +:+ LF))
       else mret tt);;
      emit (Ev_sleep 1);;
      main_loop_from true rest
  | Some dev :: rest =>
      open_device;;
      e ← device_loop dev;
      match e with
      | Awaiting_read => mret In_session
      | _ => emit Ev_close_device;; main_loop_from false rest
      end
  end.

Definition main_loop (opens : list (option device)) : M supervisor_end :=
  main_loop_from false opens.

End Program.

(** ** main (lines 336-547) *)

(** One answer of [getopt]: the character it returns, with [optarg] and
    [optopt] as they stand after the call. *)
Record getopt_result := Getopt { opt : ascii; optarg : string; optopt : ascii }.

(** The variables that the option loop assigns: the locals of [main] and
    the globals [daemonize], [print_unknown], [devicefile], [influx_db]. *)
Record options := Options {
  o_daemonize : bool;
  o_show_help : bool;
  o_print_unknown : bool;
  o_reldatadir : option string;
  o_devicefile : option string;
  o_logfile : option string;
  o_pidfile : option string;
  o_influx_host : option string;
  o_influx_port : option string;
  o_influx_db : option string;
  o_influx_usr : option string;
  o_influx_pwd : option string;
  o_opterr : Z
}.

Definition no_options : options :=
  Options false false false None None None None None None None None None 0.

(** [influx_client_t] of influxdb.h, as far as [main] fills it. *)
Record influx_client_t := Influx {
  host : option string;
  port : Z;
  db : option string;
  usr : option string;
  pwd : option string
}.

(** The global [influx] before [main] runs. *)
Definition influx_zero : influx_client_t := Influx None 0 None None None.

Inductive open_flags :=
| O_TRUNC     (* O_CREAT | O_WRONLY | O_TRUNC *)
| O_APPEND.   (* O_CREAT | O_WRONLY | O_APPEND *)

(** The calls of [main]; [St_run] carries those of [write_data] and
    [main_loop]. *)
Inductive startup_event :=
| St_stderr (m : string)
| St_perror (m : string)
| St_realpath (path : string)
| St_open (path : string) (flags : open_flags)
| St_daemon
| St_getpid
| St_dup2 (fd : Z)
| St_close (fd : Z)
| St_co2mon_init
| St_run (e : event).

(** What the environment answers to [main]. *)
Record startup := Startup {
  getopts : list getopt_result;       (* until getopt returns -1 *)
  optind_is_argc : bool;              (* optind == argc after the loop *)
  realpath_result : option string;    (* realpath(reldatadir, NULL) *)
  pidfile_fd : Z;                     (* open(pidfile, ...) *)
  logfile_fd : Z;                     (* open(logfile, ...) *)
  daemon_result : Z;                  (* daemon(0, 0) *)
  pid : Z;                            (* getpid() *)
  init_result : Z                     (* co2mon_init() *)
}.

(** How [main] ends on a script: [exit(status)], [return status], or
    inside [main_loop], which has no way out. *)
Inductive main_end :=
| Exited (status : Z)
| Returned (status : Z)
| Running (g : globals) (influx : influx_client_t) (e : supervisor_end).

(** The body of the option loop (lines 352-397). *)
Definition option_case (o : options) (r : getopt_result)
  : options * list startup_event :=
  match opt r with
  | "d"%char => (Options true (o_show_help o) (o_print_unknown o) (o_reldatadir o)
                   (o_devicefile o) (o_logfile o) (o_pidfile o) (o_influx_host o)
                   (o_influx_port o) (o_influx_db o) (o_influx_usr o) (o_influx_pwd o)
                   (o_opterr o), [])
  | "h"%char => (Options (o_daemonize o) true (o_print_unknown o) (o_reldatadir o)
                   (o_devicefile o) (o_logfile o) (o_pidfile o) (o_influx_host o)
                   (o_influx_port o) (o_influx_db o) (o_influx_usr o) (o_influx_pwd o)
                   (o_opterr o), [])
  | "u"%char => (Options (o_daemonize o) (o_show_help o) true (o_reldatadir o)
                   (o_devicefile o) (o_logfile o) (o_pidfile o) (o_influx_host o)
                   (o_influx_port o) (o_influx_db o) (o_influx_usr o) (o_influx_pwd o)
                   (o_opterr o), [])
  | "D"%char => (Options (o_daemonize o) (o_show_help o) (o_print_unknown o)
                   (Some (optarg r))
                   (o_devicefile o) (o_logfile o) (o_pidfile o) (o_influx_host o)
                   (o_influx_port o) (o_influx_db o) (o_influx_usr o) (o_influx_pwd o)
                   (o_opterr o), [])
  | "f"%char => (Options (o_daemonize o) (o_show_help o) (o_print_unknown o)
                   (o_reldatadir o)
                   (Some (optarg r)) (o_logfile o) (o_pidfile o) (o_influx_host o)
                   (o_influx_port o) (o_influx_db o) (o_influx_usr o) (o_influx_pwd o)
                   (o_opterr o), [])
  | "l"%char => (Options (o_daemonize o) (o_show_help o) (o_print_unknown o)
                   (o_reldatadir o)
                   (o_devicefile o) (Some (optarg r)) (o_pidfile o) (o_influx_host o)
                   (o_influx_port o) (o_influx_db o) (o_influx_usr o) (o_influx_pwd o)
                   (o_opterr o), [])
  | "p"%char => (Options (o_daemonize o) (o_show_help o) (o_print_unknown o)
                   (o_reldatadir o)
                   (o_devicefile o) (o_logfile o) (Some (optarg r)) (o_influx_host o)
                   (o_influx_port o) (o_influx_db o) (o_influx_usr o) (o_influx_pwd o)
                   (o_opterr o), [])
  | "H"%char => (Options (o_daemonize o) (o_show_help o) (o_print_unknown o)
                   (o_reldatadir o)
                   (o_devicefile o) (o_logfile o) (o_pidfile o) (Some (optarg r))
                   (o_influx_port o) (o_influx_db o) (o_influx_usr o) (o_influx_pwd o)
                   (o_opterr o), [])
  | "P"%char => (Options (o_daemonize o) (o_show_help o) (o_print_unknown o)
                   (o_reldatadir o)
                   (o_devicefile o) (o_logfile o) (o_pidfile o) (o_influx_host o)
                   (Some (optarg r)) (o_influx_db o) (o_influx_usr o) (o_influx_pwd o)
                   (o_opterr o), [])
  | "B"%char => (Options (o_daemonize o) (o_show_help o) (o_print_unknown o)
                   (o_reldatadir o)
                   (o_devicefile o) (o_logfile o) (o_pidfile o) (o_influx_host o)
                   (o_influx_port o) (Some (optarg r)) (o_influx_usr o) (o_influx_pwd o)
                   (o_opterr o), [])
  | "U"%char => (Options (o_daemonize o) (o_show_help o) (o_print_unknown o)
                   (o_reldatadir o)
                   (o_devicefile o) (o_logfile o) (o_pidfile o) (o_influx_host o)
                   (o_influx_port o) (o_influx_db o) (Some (optarg r)) (o_influx_pwd o)
                   (o_opterr o), [])
  | "W"%char => (Options (o_daemonize o) (o_show_help o) (o_print_unknown o)
                   (o_reldatadir o)
                   (o_devicefile o) (o_logfile o) (o_pidfile o) (o_influx_host o)
                   (o_influx_port o) (o_influx_db o) (o_influx_usr o) (Some (optarg r))
                   (o_opterr o), [])
  | ":"%char => (Options (o_daemonize o) (o_show_help o) (o_print_unknown o)
                   (o_reldatadir o)
                   (o_devicefile o) (o_logfile o) (o_pidfile o) (o_influx_host o)
                   (o_influx_port o) (o_influx_db o) (o_influx_usr o) (o_influx_pwd o)
                   (o_opterr o + 1),
                 [St_stderr ("Option -" +:+ String (optopt r) EmptyString
                             +:+ " requires an operand" +:+ LF)])
  | "?"%char => (Options (o_daemonize o) (o_show_help o) (o_print_unknown o)
                   (o_reldatadir o)
                   (o_devicefile o) (o_logfile o) (o_pidfile o) (o_influx_host o)
                   (o_influx_port o) (o_influx_db o) (o_influx_usr o) (o_influx_pwd o)
                   (o_opterr o + 1),
                 [St_stderr ("Unrecognized option: -" +:+ String (optopt r) EmptyString
                             +:+ LF)])
  | _ => (o, [])
  end.

(** The option loop (lines 350-398). *)
Fixpoint option_loop (o : options) (rs : list getopt_result)
  : options * list startup_event :=
  match rs with
  | [] => (o, [])
  | r :: rest =>
      let '(o1, ev1) := option_case o r in
      let '(o2, ev2) := option_loop o1 rest in
      (o2, ev1 ++ ev2)
  end.

Definition usage_line : string :=
  "usage: co2mond [-dhu] [-D datadir] [-f device] [-p pidfle] [-l logfile]" +:+ LF.

(** The help text (lines 404-432); [linux] stands for [__linux__]. *)
Definition help_text (linux : bool) : list startup_event :=
  map (fun l => St_stderr (l +:+ LF))
    [""; "  -d    run as a daemon"; "  -h    show this help message";
     "  -u    print values for unknown items"; "  -D datadir";
     "        store values from the sensor in datadir"; "  -f devicefile";
     if linux then "        path to a device (e.g., /dev/hidraw0)"
     else "        path to a device";
     "  -p pidfile"; "        write PID to a file named pidfile"; "  -l logfile";
     "        write diagnostic information to a file named logfile";
     "  -H hostname"; "        InfluxDB hostname (default: influxdb)"; "  -P port";
     "        InfluxDB port (default: 8086)"; "  -B database";
     "        InfluxDB database (needed to turn on InfluxDB delivery)";
     "  -U username"; "        InfluxDB username (optional)"; "  -W password";
     "        InfluxDB password (optional)"; ""].

(** Lines 474-505. *)
Definition configure_influx (atoi : string -> Z) (o : options) : influx_client_t :=
  match o_influx_db o with
  | None => influx_zero
  | Some database =>
      Influx (Some (default "influxdb" (o_influx_host o)))
             (from_option atoi 8086 (o_influx_port o))
             (Some database) (o_influx_usr o) (o_influx_pwd o)
  end.

Section Main.

Variable linux : bool.
Variable atoi : string -> Z.
Variables returns indeterminate : nat -> Z.

(** Lines 507-547, once the files are open: [pidfd] and [logfd] are -1
    when the option was not given. *)
Definition main_start (st : startup) (opens : list (option device))
    (g : globals) (influx : influx_client_t) (pidfd logfd : Z)
  : main_end * list startup_event :=
  let after_daemon (ev0 : list startup_event) :=
    let '(pid_ok, s1, ev1) :=
      if negb (pidfd =? -1) then
        let '(r, s1, evs) :=
          write_data returns pidfd (snprintf VALUE_MAX (fmt_d (to_llong (pid st))))
            initial_state in
        (negb (r =? 0), s1, St_getpid :: map St_run evs)
      else (true, initial_state, []) in
    if negb pid_ok then (Exited 1, ev0 ++ ev1) else
    let ev2 := if negb (logfd =? -1) then [St_dup2 logfd; St_close logfd] else [] in
    if init_result st <? 0 then
      (Returned (init_result st), ev0 ++ ev1 ++ ev2 ++ [St_co2mon_init])
    else
      let '(e, _, evs) := main_loop g returns indeterminate opens s1 in
      (Running g influx e, ev0 ++ ev1 ++ ev2 ++ St_co2mon_init :: map St_run evs) in
  if daemonize g then
    if daemon_result st =? -1
    then (Exited 1, [St_daemon; St_perror "daemon"])
    else after_daemon [St_daemon]
  else after_daemon [].

(** Lines 442-472: the data directory, the pid file and the log file. *)
Definition main_files (st : startup) (opens : list (option device)) (o : options)
  : main_end * list startup_event :=
  let with_files (datadir : option string) (ev0 : list startup_event) :=
    let with_log (pidfd : Z) (ev1 : list startup_event) :=
      let go (logfd : Z) (ev2 : list startup_event) :=
        let g := Globals (o_daemonize o) (o_print_unknown o) (o_devicefile o)
                   datadir (o_influx_db o) in
        let '(e, ev3) := main_start st opens g (configure_influx atoi o) pidfd logfd in
        (e, ev0 ++ ev1 ++ ev2 ++ ev3) in
      match o_logfile o with
      | None => go (-1) []
      | Some logfile =>
          if logfile_fd st =? -1
          then (Exited 1, ev0 ++ ev1 ++ [St_open logfile O_APPEND; St_perror logfile])
          else go (logfile_fd st) [St_open logfile O_APPEND]
      end in
    match o_pidfile o with
    | None => with_log (-1) []
    | Some pidfile =>
        if pidfile_fd st =? -1
        then (Exited 1, ev0 ++ [St_open pidfile O_TRUNC; St_perror pidfile])
        else with_log (pidfile_fd st) [St_open pidfile O_TRUNC]
    end in
  match o_reldatadir o with
  | None => with_files None []
  | Some reldatadir =>
      match realpath_result st with
      | None => (Exited 1, [St_realpath reldatadir; St_perror reldatadir])
      | Some dir => with_files (Some dir) [St_realpath reldatadir]
      end
  end.

(** main *)
Definition main (st : startup) (opens : list (option device))
  : main_end * list startup_event :=
  let '(o, ev) := option_loop no_options (getopts st) in
  if o_show_help o || negb (o_opterr o =? 0) || negb (optind_is_argc st) then
    (Exited 1,
     ev ++ St_stderr usage_line :: (if o_show_help o then help_text linux else []))
  else if o_daemonize o && negb (bool_decide (is_Some (o_reldatadir o))
                                 || bool_decide (is_Some (o_influx_db o))) then
    (Exited 1,
     ev ++ [St_stderr ("co2mond: it is useless to use -d without -D or -B." +:+ LF)])
  else
    let '(e, ev') := main_files st opens o in
    (e, ev ++ ev').

End Main.

(** ** Vocabulary for the statements *)

Definition code_of (result : co2mon_data_t) : Z := at_index result 0.

(** The 16-bit value carried by bytes 1 and 2, high byte first. *)
Definition raw_of (result : co2mon_data_t) : Z :=
  Z.shiftl (at_index result 1) 8 + at_index result 2.

(** The sum of bytes 0 to 2 in 8-bit wrap-around arithmetic. *)
Definition checksum_of (result : co2mon_data_t) : Z :=
  (at_index result 0 + at_index result 1 + at_index result 2) mod 256.

(** A frame that passes both checks of lines 187-203. *)
Definition well_formed (result : co2mon_data_t) : Prop :=
  at_index result 4 = 0x0d ∧ at_index result 3 = checksum_of result.

Definition malformed (result : co2mon_data_t) : Prop :=
  at_index result 4 ≠ 0x0d ∨ at_index result 3 ≠ checksum_of result.

(** The codes that reach a sink: TAMB, and CNTR within range. *)
Definition recognised (r0 w : Z) : Prop :=
  r0 = CODE_TAMB ∨ (r0 = CODE_CNTR ∧ w <= 3000).

Definition metric_name (r0 : Z) : string :=
  if r0 =? CODE_TAMB then "Tamb" else "CntR".

(** The contents of [buf] for a recognised reading. *)
Definition rendered (r0 w : Z) : string :=
  snprintf VALUE_MAX (if r0 =? CODE_TAMB then fmt_4f (decode_temperature w) else fmt_d w).

(** The console echo of a recognised reading. *)
Definition echo (g : globals) (r0 w : Z) : list event :=
  if daemonize g then []
  else [Ev_printf (metric_name r0 +:+ TAB +:+ rendered r0 w +:+ LF)].

(** The sink write for a recognised reading: the call made at lines 223
    or 233 for TAMB, 263 or 274 for CNTR. *)
Definition sink_write (g : globals) (returns indeterminate : nat -> Z)
    (r0 w : Z) : M Z :=
  if influx_db g is Some _ then
    if r0 =? CODE_TAMB
    then write_temperature_influx returns indeterminate (rendered r0 w)
    else write_co2_influx returns indeterminate (rendered r0 w)
  else write_value g returns (metric_name r0) (rendered r0 w).

(** The guarded call of lines 240-243 and 281-284. *)
Definition heartbeat (g : globals) (returns : nat -> Z) : M unit :=
  if influx_db g is Some _ then mret tt else write_heartbeat g returns.

(** The array has its 256 entries. *)
Definition cache_wf (s : state) : Prop := length (co2mon_data s) = 256%nat.

(** Computations that keep the array at its size. *)
Definition keeps_wf {A} (m : M A) : Prop :=
  ∀ s, cache_wf s -> cache_wf (state_of (m s)).

(** The state after the sink write returned [r] in state [s1]. *)
Definition committed (r0 w r : Z) (s1 : state) : state :=
  if r =? 0 then s1 else State (<[Z.to_nat r0 := w]> (co2mon_data s1)) (calls s1).

(** The name of the file that [write_value] opens. *)
Definition sink_file (dir name : string) : string :=
  snprintf PATH_MAX (dir +:+ "/" +:+ name).

(** A file named heartbeat was opened and a decimal time stamp followed
    by a line feed was written. *)
Definition heartbeat_written (evs : list event) : Prop :=
  ∃ dir fd t, Ev_open (sink_file dir "heartbeat") ∈ evs ∧ Ev_write fd (fmt_d t +:+ LF) ∈ evs.

(** The real number [w * 0.0625 - 273.15], counted in ten-thousandths. *)
Definition ten_thousandths (w : Z) : Z := w * 625 - 2731500.

(** The text of a number given in ten-thousandths, with four decimals. *)
Definition four_decimals (n : Z) : string :=
  (if n <? 0 then "-" else "") +:+ fmt_d (Z.abs n / 10000) +:+ "."
    +:+ frac4 (Z.abs n mod 10000).

(** The double computed for [w] is finite, has the sign of the exact
    value, rounds to it at four decimals, and its text fits [buf]. *)
Definition temperature_check (w : Z) : bool :=
  match Prim2SF (decode_temperature w) with
  | S754_finite s m e =>
      Bool.eqb s (ten_thousandths w <? 0)
      && (scaled4 m e =? Z.abs (ten_thousandths w))
      && (String.length (four_decimals (ten_thousandths w)) <=? 19)%nat
  | _ => false
  end.

(** [p] holds of the [n] integers from [from] on. *)
Fixpoint all_from (p : Z -> bool) (n : nat) (from : Z) : bool :=
  match n with
  | O => true
  | S k => p from && all_from p k (from + 1)
  end.

(** The diagnostic of line 319, and the pause of line 322. *)
Definition is_unable_to_open (e : event) : bool :=
  match e with
  | Ev_stderr m => String.eqb m ("Unable to open CO2 device" +:+ LF)
  | _ => false
  end.

Definition is_sleep (e : event) : bool :=
  match e with Ev_sleep _ => true | _ => false end.

Fixpoint count_events (p : event -> bool) (evs : list event) : nat :=
  match evs with
  | [] => 0
  | e :: rest => (if p e then 1 else 0) + count_events p rest
  end.

Fixpoint keep_events (p : event -> bool) (evs : list event) : list event :=
  match evs with
  | [] => []
  | e :: rest => if p e then e :: keep_events p rest else keep_events p rest
  end.

(** Computations that emit no event satisfying [p]. *)
Definition emits_none {A} (p : event -> bool) (m : M A) : Prop :=
  ∀ s, keep_events p (events_of (m s)) = [].

(** The number of failed opens in a script. *)
Fixpoint failures (opens : list (option device)) : nat :=
  match opens with
  | [] => 0
  | None :: rest => S (failures rest)
  | Some _ :: rest => failures rest
  end.

(** The number of maximal runs of consecutive failed opens, each run
    counted at its last failure. *)
Fixpoint failure_streaks (opens : list (option device)) : nat :=
  match opens with
  | [] => 0
  | None :: rest =>
      match rest with
      | None :: _ => failure_streaks rest
      | _ => S (failure_streaks rest)
      end
  | Some _ :: rest => failure_streaks rest
  end.

(** A scripted session that returns: the magic table is refused, or some
    read reports a non-positive status. *)
Definition session_ends (dev : device) : Prop :=
  magic_table_ok dev = false ∨ Exists (λ rf, rf.1 <= 0) (frames dev).

Definition all_sessions_end (opens : list (option device)) : Prop :=
  Forall (λ o, from_option session_ends True o) opens.

(** Whether the first open of a script fails. *)
Definition head_failed (opens : list (option device)) : bool :=
  match opens with None :: _ => true | _ => false end.

(** Whether the last open of a script failed. *)
Definition last_failed (opens : list (option device)) : bool :=
  match last opens with
  | Some None => true
  | _ => false
  end.


(** Computations that leave the array alone. *)
Definition keeps_cache {A} (m : M A) : Prop :=
  ∀ s, co2mon_data (state_of (m s)) = co2mon_data s.

(** ** Vocabulary for the command line *)

(** [getopt] returned the character [c] at least once. *)
Definition given (c : ascii) (rs : list getopt_result) : Prop :=
  Exists (λ r, opt r = c) rs.

(** The argument of the last occurrence of option [c], if any. *)
Fixpoint last_arg (c : ascii) (rs : list getopt_result) : option string :=
  match rs with
  | [] => None
  | r :: rest =>
      match last_arg c rest with
      | Some a => Some a
      | None => if decide (opt r = c) then Some (optarg r) else None
      end
  end.

(** How often [getopt] reported a missing operand or an unknown option. *)
Fixpoint option_errors (rs : list getopt_result) : Z :=
  match rs with
  | [] => 0
  | r :: rest =>
      (if bool_decide (opt r = ":"%char ∨ opt r = "?"%char) then 1 else 0)
      + option_errors rest
  end.

Definition is_st_stderr (e : startup_event) : bool :=
  match e with St_stderr _ => true | _ => false end.

(** The options as [getopt]'s answers determine them. *)
Definition parsed (rs : list getopt_result) : options :=
  Options (bool_decide (given "d" rs)) (bool_decide (given "h" rs))
    (bool_decide (given "u" rs))
    (last_arg "D" rs) (last_arg "f" rs) (last_arg "l" rs) (last_arg "p" rs)
    (last_arg "H" rs) (last_arg "P" rs) (last_arg "B" rs) (last_arg "U" rs)
    (last_arg "W" rs) (option_errors rs).

(** The options after a loop that started from [o]. *)
Definition parsed_from (o : options) (rs : list getopt_result) : options :=
  Options (o_daemonize o || bool_decide (given "d" rs))
    (o_show_help o || bool_decide (given "h" rs))
    (o_print_unknown o || bool_decide (given "u" rs))
    (from_option Some (o_reldatadir o) (last_arg "D" rs))
    (from_option Some (o_devicefile o) (last_arg "f" rs))
    (from_option Some (o_logfile o) (last_arg "l" rs))
    (from_option Some (o_pidfile o) (last_arg "p" rs))
    (from_option Some (o_influx_host o) (last_arg "H" rs))
    (from_option Some (o_influx_port o) (last_arg "P" rs))
    (from_option Some (o_influx_db o) (last_arg "B" rs))
    (from_option Some (o_influx_usr o) (last_arg "U" rs))
    (from_option Some (o_influx_pwd o) (last_arg "W" rs))
    (o_opterr o + option_errors rs).

(** The globals that [main] hands to [main_loop]. *)
Definition globals_of (st : startup) : globals :=
  let rs := getopts st in
  Globals (bool_decide (given "d" rs)) (bool_decide (given "u" rs)) (last_arg "f" rs)
    (if last_arg "D" rs is Some _ then realpath_result st else None)
    (last_arg "B" rs).

(** ** Classes of events *)

Definition is_printf (e : event) : bool :=
  match e with Ev_printf _ => true | _ => false end.

(** The calls made on behalf of the file sink. *)
Definition is_file_event (e : event) : bool :=
  match e with
  | Ev_open _ | Ev_fcntl _ _ | Ev_ftruncate _ | Ev_write _ _ | Ev_close _
  | Ev_perror _ => true
  | _ => false
  end.

Definition is_post_http (e : event) : bool :=
  match e with Ev_post_http _ => true | _ => false end.

Definition is_open_device (e : event) : bool :=
  match e with Ev_open_device _ => true | _ => false end.

Definition is_close_device (e : event) : bool :=
  match e with Ev_close_device => true | _ => false end.

Definition is_read_data (e : event) : bool :=
  match e with Ev_read_data => true | _ => false end.

Definition is_device_call (e : event) : bool :=
  is_open_device e || is_close_device e.

(** The opens and closes a script of open outcomes calls for: every
    device that was opened is closed before the next attempt. *)
Fixpoint device_calls (path : option string) (opens : list (option device))
  : list event :=
  match opens with
  | [] => []
  | None :: rest => Ev_open_device path :: device_calls path rest
  | Some _ :: rest => Ev_open_device path :: Ev_close_device :: device_calls path rest
  end.

(** The number of successful opens in a script. *)
Fixpoint successes (opens : list (option device)) : nat :=
  match opens with
  | [] => 0
  | None :: rest => successes rest
  | Some _ :: rest => S (successes rest)
  end.

(** A read that reports an error or the end of the stream. *)
Definition read_failed (rf : Z * co2mon_data_t) : Prop := rf.1 <= 0.

(** ** Sample inputs *)

Definition no_sink : globals := Globals false false None None None.
Definition file_sink : globals := Globals false false None (Some "/var/co2") None.
Definition influx_sink : globals := Globals true false None None (Some "co2").

(** TAMB, raw 0x0c0e. *)
Definition frame_tamb : co2mon_data_t := [x42; x0c; x0e; x5c; x0d; x00; x00; x00].
(** CNTR, raw 412. *)
Definition frame_cntr : co2mon_data_t := [x50; x01; x9c; xed; x0d; x00; x00; x00].
(** CNTR, raw 3000 and raw 3001. *)
Definition frame_cntr_3000 : co2mon_data_t := [x50; x0b; xb8; x13; x0d; x00; x00; x00].
Definition frame_cntr_3001 : co2mon_data_t := [x50; x0b; xb9; x14; x0d; x00; x00; x00].
(** TAMB and CNTR, raw 0. *)
Definition frame_tamb_zero : co2mon_data_t := [x42; x00; x00; x42; x0d; x00; x00; x00].
Definition frame_cntr_zero : co2mon_data_t := [x50; x00; x00; x50; x0d; x00; x00; x00].
(** A good checksum behind a wrong sentinel, and a wrong checksum. *)
Definition frame_bad_sentinel : co2mon_data_t := [x50; x01; x9c; xed; x0a; x00; x00; x00].
Definition frame_bad_checksum : co2mon_data_t := [x50; x01; x9c; xee; x0d; x00; x00; x00].

(** An unknown code: 0x6d, raw 0x064a. *)
Definition frame_unknown : co2mon_data_t := [x6d; x06; x4a; xbd; x0d; x00; x00; x00].

(** A daemon started with a data directory, a pid file, a database and
    a port; and the same command line with a missing operand. *)
Definition sample_startup : startup :=
  Startup [Getopt "d" "" "000"; Getopt "D" "data" "000";
           Getopt "p" "/run/co2mond.pid" "000"; Getopt "B" "co2" "000";
           Getopt "P" "9999" "000"]
    true (Some "/srv/data") 4 5 0 321 0.

Definition sample_bad_startup : startup :=
  Startup [Getopt "d" "" "000"; Getopt ":" "" "D"] true None 0 0 0 0 0.

Definition sample_daemon_only : startup :=
  Startup [Getopt "d" "" "000"; Getopt "u" "" "000"] true None 0 0 0 0 0.

(** Every call succeeds: descriptors are 3, lock and truncate give 0. *)
Definition all_zero : nat -> Z := fun _ => 0.
Definition always (v : Z) : nat -> Z := fun _ => v.

(** ** Basic facts *)

Lemma at_index_range (result : co2mon_data_t) (i : nat) :
  0 <= at_index result i < 256.
Proof.
  unfold at_index. destruct (result !! i) as [b|]; simpl; [|lia].
  pose proof (Byte.to_N_bounded b). lia.
Qed.

Lemma to_uchar_at_index result i : to_uchar (at_index result i) = at_index result i.
Proof. unfold to_uchar. apply Z.mod_small, at_index_range. Qed.

Lemma raw_of_range result : 0 <= raw_of result < 65536.
Proof.
  unfold raw_of. rewrite Z.shiftl_mul_pow2 by lia.
  pose proof (at_index_range result 1). pose proof (at_index_range result 2). lia.
Qed.

Lemma to_uint16_raw_of result : to_uint16 (raw_of result) = raw_of result.
Proof. unfold to_uint16. apply Z.mod_small, raw_of_range. Qed.

Lemma checksum_model result :
  to_uchar (to_uchar (at_index result 0) + to_uchar (at_index result 1)
            + to_uchar (at_index result 2)) = checksum_of result.
Proof. by rewrite !to_uchar_at_index. Qed.

Lemma initial_state_wf : cache_wf initial_state.
Proof. reflexivity. Qed.

Lemma initial_state_zero (i : nat) :
  (i < 256)%nat -> co2mon_data initial_state !!! i = 0.
Proof.
  intros Hi. change (co2mon_data initial_state) with (replicate 256 0).
  by apply lookup_total_replicate_2.
Qed.

Lemma code_index_lt result : (Z.to_nat (code_of result) < 256)%nat.
Proof. pose proof (at_index_range result 0). unfold code_of. lia. Qed.

(** ** Running the monad *)

Lemma run_bind {A B} (m : M A) (f : A -> M B) (s : state) :
  (m ≫= f) s =
  (value_of (f (value_of (m s)) (state_of (m s))),
   state_of (f (value_of (m s)) (state_of (m s))),
   events_of (m s) ++ events_of (f (value_of (m s)) (state_of (m s)))).
Proof.
  unfold mbind, M_bind, value_of, state_of, events_of.
  destruct (m s) as [[a s1] ev1]; simpl.
  by destruct (f a s1) as [[b s2] ev2].
Qed.

Lemma keeps_ret {A} (a : A) : keeps_cache (mret a).
Proof. done. Qed.

Lemma keeps_bind {A B} (m : M A) (f : A -> M B) :
  keeps_cache m -> (∀ a, keeps_cache (f a)) -> keeps_cache (m ≫= f).
Proof.
  intros Hm Hf s. rewrite run_bind. unfold state_of at 1; simpl.
  by rewrite Hf, Hm.
Qed.

Lemma keeps_emit e : keeps_cache (emit e).
Proof. done. Qed.

Lemma keeps_call returns e : keeps_cache (call returns e).
Proof. done. Qed.

Lemma keeps_no_return indeterminate : keeps_cache (no_return_value indeterminate).
Proof. done. Qed.

Lemma keeps_if {A} (b : bool) (m1 m2 : M A) :
  keeps_cache m1 -> keeps_cache m2 -> keeps_cache (if b then m1 else m2).
Proof. by destruct b. Qed.

Create HintDb keeps.
#[local] Hint Resolve keeps_ret keeps_emit keeps_call keeps_no_return : keeps.
#[local] Hint Extern 2 (keeps_cache (_ ≫= _)) => apply keeps_bind; [|intros] : keeps.
#[local] Hint Extern 2 (keeps_cache (if _ then _ else _)) => apply keeps_if : keeps.

Lemma keeps_write_data returns fd value : keeps_cache (write_data returns fd value).
Proof. unfold write_data, lock. auto 20 with keeps. Qed.

Lemma keeps_write_value g returns name value :
  keeps_cache (write_value g returns name value).
Proof.
  unfold write_value. destruct (datadir g); [|auto with keeps].
  pose proof keeps_write_data. auto 20 with keeps.
Qed.

Lemma keeps_write_heartbeat g returns : keeps_cache (write_heartbeat g returns).
Proof. unfold write_heartbeat. pose proof keeps_write_value. auto 20 with keeps. Qed.

Lemma keeps_heartbeat g returns : keeps_cache (heartbeat g returns).
Proof. unfold heartbeat. destruct (influx_db g); auto using keeps_write_heartbeat with keeps. Qed.

Lemma keeps_sink_write g returns indeterminate r0 w :
  keeps_cache (sink_write g returns indeterminate r0 w).
Proof.
  unfold sink_write, write_temperature_influx, write_co2_influx.
  destruct (influx_db g); [destruct (r0 =? CODE_TAMB)|];
    auto 20 using keeps_write_value with keeps.
Qed.

Lemma loop_body_well_formed g returns indeterminate result s :
  well_formed result ->
  loop_body g returns indeterminate result s =
  ((if code_of result =? CODE_TAMB
    then case_TAMB g returns indeterminate (code_of result) (raw_of result)
    else if code_of result =? CODE_CNTR
    then case_CNTR g returns indeterminate (code_of result) (raw_of result)
    else case_default g (code_of result) (raw_of result));; mret Body_end) s.
Proof.
  intros [H4 H3]. unfold loop_body.
  rewrite H4, checksum_model, !to_uchar_at_index, H3, !Z.eqb_refl.
  cbn [negb]. fold (raw_of result). rewrite to_uint16_raw_of. reflexivity.
Qed.

Ltac run :=
  repeat first
    [ rewrite run_bind
    | progress cbn [value_of state_of events_of fst snd negb emit load store
                    mret M_ret co2mon_data calls] ].

Ltac tidy := rewrite ?app_nil_r, <- ?app_assoc; cbn [app]; try reflexivity.

Lemma loop_body_recognised g returns indeterminate result s :
  well_formed result -> recognised (code_of result) (raw_of result) ->
  let r0 := code_of result in
  let w := raw_of result in
  loop_body g returns indeterminate result s =
    if co2mon_data s !!! Z.to_nat r0 =? w then
      (Body_end, state_of (heartbeat g returns s),
       echo g r0 w ++ events_of (heartbeat g returns s))
    else
      let sw := sink_write g returns indeterminate r0 w s in
      let s2 := committed r0 w (value_of sw) (state_of sw) in
      (Body_end, state_of (heartbeat g returns s2),
       echo g r0 w ++ events_of sw ++ events_of (heartbeat g returns s2)).
Proof.
  intros Hwf Hrec r0 w. rewrite loop_body_well_formed by done.
  fold r0 w.
  destruct Hrec as [Hc | [Hc Hle]]; fold r0 in Hc.
  - rewrite Hc, Z.eqb_refl.
    unfold case_TAMB, heartbeat, sink_write, echo, rendered, metric_name, committed.
    rewrite !Z.eqb_refl.
    destruct (daemonize g), (influx_db g); run.
    all: destruct (_ !!! _ =? w); run; tidy.
    all: destruct (_ =? 0); run; tidy.
  - fold w in Hle. rewrite Hc. change (CODE_CNTR =? CODE_TAMB) with false.
    rewrite Z.eqb_refl. cbv iota.
    unfold case_CNTR, heartbeat, sink_write, echo, rendered, metric_name, committed.
    change (CODE_CNTR =? CODE_TAMB) with false. cbv iota.
    replace (3000 <? w) with false by lia.
    destruct (daemonize g), (influx_db g); run.
    all: destruct (_ !!! _ =? w); run; tidy.
    all: destruct (_ =? 0); run; tidy.
Qed.


(** ** The array keeps its size *)

Lemma wf_of_keeps {A} (m : M A) : keeps_cache m -> keeps_wf m.
Proof. intros Hm s Hs. unfold cache_wf. by rewrite Hm. Qed.

Lemma wf_bind {A B} (m : M A) (f : A -> M B) :
  keeps_wf m -> (∀ a, keeps_wf (f a)) -> keeps_wf (m ≫= f).
Proof.
  intros Hm Hf s Hs. rewrite run_bind. unfold state_of at 1; simpl.
  by apply Hf, Hm.
Qed.

Lemma wf_store r0 w : keeps_wf (store r0 w).
Proof. intros s Hs. unfold cache_wf in *. cbn. by rewrite length_insert. Qed.

Lemma wf_if {A} (b : bool) (m1 m2 : M A) :
  keeps_wf m1 -> keeps_wf m2 -> keeps_wf (if b then m1 else m2).
Proof. by destruct b. Qed.

#[local] Hint Resolve wf_store : keeps.
#[local] Hint Extern 1 (keeps_wf (mret _)) => apply wf_of_keeps, keeps_ret : keeps.
#[local] Hint Extern 1 (keeps_wf (emit _)) => apply wf_of_keeps, keeps_emit : keeps.
#[local] Hint Extern 1 (keeps_wf (load _)) => apply wf_of_keeps; done : keeps.
#[local] Hint Extern 2 (keeps_wf (_ ≫= _)) => apply wf_bind; [|intros] : keeps.
#[local] Hint Extern 2 (keeps_wf (if _ then _ else _)) => apply wf_if : keeps.
#[local] Hint Extern 2 (keeps_wf (match ?o with Some _ => _ | None => _ end)) =>
  destruct o : keeps.

Lemma wf_loop_body g returns indeterminate result :
  keeps_wf (loop_body g returns indeterminate result).
Proof.
  pose proof (λ n v, wf_of_keeps _ (keeps_write_value g returns n v)).
  pose proof (wf_of_keeps _ (keeps_write_heartbeat g returns)).
  pose proof (λ r0 w, wf_of_keeps _ (keeps_sink_write g returns indeterminate r0 w)).
  assert (∀ v, keeps_wf (write_temperature_influx returns indeterminate v))
    by (intros; by apply wf_of_keeps).
  assert (∀ v, keeps_wf (write_co2_influx returns indeterminate v))
    by (intros; by apply wf_of_keeps).
  unfold loop_body, case_TAMB, case_CNTR, case_default. auto 40 with keeps.
Qed.

Lemma wf_read_loop g returns indeterminate reads :
  keeps_wf (read_loop g returns indeterminate reads).
Proof.
  pose proof (wf_loop_body g returns indeterminate).
  induction reads as [|[r result] rest IH]; cbn [read_loop]; auto 20 with keeps.
Qed.

Lemma wf_device_loop g returns indeterminate dev :
  keeps_wf (device_loop g returns indeterminate dev).
Proof.
  pose proof (wf_read_loop g returns indeterminate).
  unfold device_loop. auto 20 with keeps.
Qed.

(** Every state the supervisor reaches from the initial one has the 256
    entries. *)
Lemma wf_main_loop g returns indeterminate opens :
  cache_wf (state_of (main_loop g returns indeterminate opens initial_state)).
Proof.
  pose proof (wf_device_loop g returns indeterminate).
  assert (Hall : ∀ flag, keeps_wf (main_loop_from g returns indeterminate flag opens)).
  { induction opens as [|[dev|] rest IH]; intros flag; cbn [main_loop_from];
      unfold open_device; auto 20 with keeps.
    apply wf_bind; [auto with keeps|]. intros _. apply wf_bind; [done|].
    intros []; auto 20 with keeps. }
  apply Hall, initial_state_wf.
Qed.

(** ** The read loop *)

Lemma loop_body_malformed g returns indeterminate result s :
  malformed result ->
  ∃ msg, loop_body g returns indeterminate result s =
         (if at_index result 4 =? 0x0d then Continue_checksum else Continue_sentinel,
          s, [Ev_stderr msg]).
Proof.
  intros Hbad. unfold loop_body.
  destruct (at_index result 4 =? 13) eqn:H4; cbn [negb].
  - rewrite checksum_model, !to_uchar_at_index.
    destruct Hbad as [Hbad|Hbad]; [lia|].
    replace (checksum_of result =? at_index result 3) with false by lia.
    eexists. cbn [negb]. run. reflexivity.
  - eexists. run. reflexivity.
Qed.

Lemma read_loop_cons g returns indeterminate r result rest s :
  0 < r ->
  read_loop g returns indeterminate ((r, result) :: rest) s =
  let body := loop_body g returns indeterminate result s in
  let tail := read_loop g returns indeterminate rest (state_of body) in
  (value_of tail, state_of tail, Ev_read_data :: events_of body ++ events_of tail).
Proof.
  intros Hr. cbn [read_loop]. replace (r <=? 0) with false by lia.
  run. reflexivity.
Qed.

Lemma read_loop_end g returns indeterminate reads s :
  value_of (read_loop g returns indeterminate reads s) =
  if decide (Exists (λ rf, rf.1 <= 0) reads) then Closed else Awaiting_read.
Proof.
  revert s. induction reads as [|[r result] rest IH]; intros s.
  - cbn. case_decide as H; [by apply Exists_nil in H|done].
  - destruct (decide (r <= 0)) as [Hr|Hr].
    + cbn [read_loop]. replace (r <=? 0) with true by lia. run.
      rewrite decide_True; [done|]. by left.
    + rewrite read_loop_cons by lia. cbn [value_of fst]. rewrite IH.
      apply decide_ext. rewrite Exists_cons. simpl. tauto.
Qed.

(** ** Frame validation *)

(** C3: for a frame of at least five bytes, a byte 4 other than 0x0d
    rejects the frame whatever the checksum; with byte 4 equal to 0x0d the
    frame is accepted exactly when byte 3 equals (byte0 + byte1 + byte2)
    mod 256, and any other byte 3 rejects it as a checksum error. *)
Theorem frame_validation g returns indeterminate (result : co2mon_data_t) (s : state) :
  (5 <= length result)%nat ->
  let exit := value_of (loop_body g returns indeterminate result s) in
  (at_index result 4 ≠ 0x0d -> exit = Continue_sentinel) ∧
  (at_index result 4 = 0x0d ->
     (exit = Body_end ↔
      at_index result 3 = (at_index result 0 + at_index result 1 + at_index result 2) mod 256) ∧
     (at_index result 3 ≠ (at_index result 0 + at_index result 1 + at_index result 2) mod 256 ->
      exit = Continue_checksum)).
Proof.
  intros _ exit. subst exit. fold (checksum_of result). split.
  - intros H4.
    destruct (loop_body_malformed g returns indeterminate result s) as [msg ->];
      [by left|].
    cbn. by replace (at_index result 4 =? 13) with false by lia.
  - intros H4.
    assert (Hbad : at_index result 3 ≠ checksum_of result ->
                   value_of (loop_body g returns indeterminate result s) = Continue_checksum).
    { intros H3.
      destruct (loop_body_malformed g returns indeterminate result s) as [msg ->];
        [by right|].
      cbn. by rewrite H4. }
    split; [split|done].
    + intros Hend. destruct (decide (at_index result 3 = checksum_of result)); [done|].
      rewrite Hbad in Hend by done. discriminate.
    + intros H3. rewrite loop_body_well_formed by done. by run.
Qed.

Lemma frame_validation_witness :
  value_of (loop_body file_sink all_zero all_zero frame_bad_sentinel initial_state)
    = Continue_sentinel ∧
  value_of (loop_body file_sink all_zero all_zero frame_bad_checksum initial_state)
    = Continue_checksum ∧
  value_of (loop_body file_sink all_zero all_zero frame_cntr initial_state)
    = Body_end.
Proof.
  split; [|split].
  - apply (frame_validation file_sink all_zero all_zero frame_bad_sentinel initial_state);
      [cbn; lia | by vm_compute].
  - apply (frame_validation file_sink all_zero all_zero frame_bad_checksum initial_state);
      [cbn; lia | reflexivity | by vm_compute].
  - apply (frame_validation file_sink all_zero all_zero frame_cntr initial_state);
      [cbn; lia | reflexivity | reflexivity].
Defined.

(** C8: once the magic table has been sent, the session ends exactly when
    a read returns a non-positive status; a frame that fails the sentinel
    or the checksum test costs one diagnostic line and the loop goes on
    with the next read from the same state, without any sink call. *)
Theorem session_exits_only_on_read_failure g returns indeterminate
    (dev : device) (s : state) :
  magic_table_ok dev = true ->
  (value_of (device_loop g returns indeterminate dev s) = Closed ↔
   Exists (λ rf, rf.1 <= 0) (frames dev)) ∧
  (¬ Exists (λ rf, rf.1 <= 0) (frames dev) ->
   value_of (device_loop g returns indeterminate dev s) = Awaiting_read) ∧
  (∀ r result rest s',
     0 < r -> malformed result ->
     ∃ msg,
       read_loop g returns indeterminate ((r, result) :: rest) s' =
       (value_of (read_loop g returns indeterminate rest s'),
        state_of (read_loop g returns indeterminate rest s'),
        Ev_read_data :: Ev_stderr msg
          :: events_of (read_loop g returns indeterminate rest s'))).
Proof.
  intros Hok.
  assert (Hdev : value_of (device_loop g returns indeterminate dev s) =
                 if decide (Exists (λ rf, rf.1 <= 0) (frames dev))
                 then Closed else Awaiting_read).
  { unfold device_loop. rewrite Hok. cbn [negb]. run. apply read_loop_end. }
  split; [|split].
  - rewrite Hdev. case_decide; split; try done.
  - intros Hno. rewrite Hdev. by rewrite decide_False.
  - intros r result rest s' Hr Hbad.
    destruct (loop_body_malformed g returns indeterminate result s' Hbad) as [msg Hb].
    exists msg. rewrite read_loop_cons by done. rewrite Hb. reflexivity.
Qed.

Lemma session_exits_only_on_read_failure_witness :
  value_of (device_loop file_sink all_zero all_zero
              (Device true [(8, frame_bad_checksum); (8, frame_bad_sentinel); (0, [])])
              initial_state) = Closed ∧
  ∃ msg,
    read_loop file_sink all_zero all_zero [(8, frame_bad_sentinel); (0, [])] initial_state
    = (Closed, initial_state,
       [Ev_read_data; Ev_stderr msg; Ev_read_data;
        Ev_stderr ("Error while reading data from device" +:+ LF)]).
Proof.
  destruct (session_exits_only_on_read_failure file_sink all_zero all_zero
              (Device true [(8, frame_bad_checksum); (8, frame_bad_sentinel); (0, [])])
              initial_state eq_refl) as (Hclosed & _ & Hskip).
  split.
  - apply Hclosed. cbn. do 2 right. left. cbn. lia.
  - apply (Hskip 8 frame_bad_sentinel [(0, [])] initial_state); [lia|].
    left. by vm_compute.
Defined.

Lemma committed_data r0 w r s1 :
  co2mon_data (committed r0 w r s1) =
  if r =? 0 then co2mon_data s1 else <[Z.to_nat r0 := w]> (co2mon_data s1).
Proof. unfold committed. by destruct (r =? 0). Qed.

(** The array after one recognised reading. *)
Lemma loop_body_recognised_data g returns indeterminate result s :
  well_formed result -> recognised (code_of result) (raw_of result) ->
  let r0 := code_of result in
  let w := raw_of result in
  co2mon_data (state_of (loop_body g returns indeterminate result s)) =
    if co2mon_data s !!! Z.to_nat r0 =? w then co2mon_data s
    else if value_of (sink_write g returns indeterminate r0 w s) =? 0 then co2mon_data s
    else <[Z.to_nat r0 := w]> (co2mon_data s).
Proof.
  intros Hwf Hrec r0 w. rewrite loop_body_recognised by done. fold r0 w.
  destruct (_ !!! _ =? w); cbn [state_of fst snd].
  - apply keeps_heartbeat.
  - etrans; [apply keeps_heartbeat|].
    rewrite committed_data.
    by rewrite (keeps_sink_write g returns indeterminate r0 w s).
Qed.

Lemma loop_body_unchanged g returns indeterminate result s :
  well_formed result -> recognised (code_of result) (raw_of result) ->
  co2mon_data s !!! Z.to_nat (code_of result) = raw_of result ->
  events_of (loop_body g returns indeterminate result s) =
    echo g (code_of result) (raw_of result) ++ events_of (heartbeat g returns s) ∧
  co2mon_data (state_of (loop_body g returns indeterminate result s)) = co2mon_data s.
Proof.
  intros Hwf Hrec Heq. split.
  - rewrite loop_body_recognised by done. by rewrite Heq, Z.eqb_refl.
  - rewrite loop_body_recognised_data by done. by rewrite Heq, Z.eqb_refl.
Qed.

Lemma loop_body_changed g returns indeterminate result s :
  well_formed result -> recognised (code_of result) (raw_of result) ->
  co2mon_data s !!! Z.to_nat (code_of result) ≠ raw_of result ->
  let r0 := code_of result in
  let w := raw_of result in
  let sw := sink_write g returns indeterminate r0 w s in
  events_of (loop_body g returns indeterminate result s) =
    echo g r0 w ++ events_of sw
      ++ events_of (heartbeat g returns (committed r0 w (value_of sw) (state_of sw))) ∧
  co2mon_data (state_of (loop_body g returns indeterminate result s)) =
    if value_of sw =? 0 then co2mon_data s else <[Z.to_nat r0 := w]> (co2mon_data s).
Proof.
  intros Hwf Hrec Hne r0 w sw. split.
  - rewrite loop_body_recognised by done. fold r0 w.
    by destruct (Z.eqb_spec (co2mon_data s !!! Z.to_nat r0) w).
  - rewrite loop_body_recognised_data by done. fold r0 w.
    by destruct (Z.eqb_spec (co2mon_data s !!! Z.to_nat r0) w).
Qed.

(** ** De-duplication and commit *)

(** The branch of lines 219-238 and 259-279, stated on the value that
    [device_loop] tests: the sink function runs exactly when the raw value
    differs from the array entry, and the entry becomes the raw value
    exactly when the value returned to [device_loop] is non-zero. *)
Lemma commit_follows_tested_value g returns indeterminate
    (result : co2mon_data_t) (s : state) :
  well_formed result -> recognised (code_of result) (raw_of result) -> cache_wf s ->
  let r0 := code_of result in
  let w := raw_of result in
  let out := loop_body g returns indeterminate result s in
  let sw := sink_write g returns indeterminate r0 w s in
  (co2mon_data s !!! Z.to_nat r0 = w ->
     events_of out = echo g r0 w ++ events_of (heartbeat g returns s) ∧
     co2mon_data (state_of out) = co2mon_data s) ∧
  (co2mon_data s !!! Z.to_nat r0 ≠ w ->
     events_of out =
       echo g r0 w ++ events_of sw
         ++ events_of (heartbeat g returns (committed r0 w (value_of sw) (state_of sw))) ∧
     (co2mon_data (state_of out) !!! Z.to_nat r0 = w ↔ value_of sw ≠ 0) ∧
     (value_of sw ≠ 0 ->
        co2mon_data (state_of out) = <[Z.to_nat r0 := w]> (co2mon_data s)) ∧
     (value_of sw = 0 ->
        co2mon_data (state_of out) = co2mon_data s ∧
        let sw' := sink_write g returns indeterminate r0 w (state_of out) in
        events_of (loop_body g returns indeterminate result (state_of out)) =
          echo g r0 w ++ events_of sw'
            ++ events_of (heartbeat g returns
                            (committed r0 w (value_of sw') (state_of sw'))))).
Proof.
  intros Hwf Hrec Hlen r0 w out sw. split.
  - intros Heq. by apply loop_body_unchanged.
  - intros Hne.
    destruct (loop_body_changed g returns indeterminate result s Hwf Hrec Hne)
      as [Hev Hdata].
    fold r0 w sw out in Hev, Hdata.
    split; [done|]. split; [|split].
    + rewrite Hdata. destruct (Z.eqb_spec (value_of sw) 0) as [Hr|Hr].
      * split; [intros; done | done].
      * split; [done | intros _].
        apply list_lookup_total_insert_eq. rewrite Hlen.
        apply code_index_lt.
    + intros Hr. rewrite Hdata. by destruct (Z.eqb_spec (value_of sw) 0).
    + intros Hr.
      assert (Hsame : co2mon_data (state_of out) = co2mon_data s).
      { rewrite Hdata. by rewrite Hr. }
      split; [done|]. intros sw'.
      apply loop_body_changed; [done..|]. by rewrite Hsame.
Qed.

Lemma commit_follows_tested_value_witness :
  co2mon_data (state_of (loop_body file_sink (always (-1)) all_zero frame_cntr initial_state))
  = co2mon_data initial_state.
Proof.
  apply (commit_follows_tested_value file_sink (always (-1)) all_zero
           frame_cntr initial_state).
  - split; reflexivity.
  - right. split; [reflexivity | by vm_compute].
  - reflexivity.
  - by vm_compute.
  - reflexivity.
Defined.


(** ** The sinks *)

Lemma write_value_no_datadir g returns name value s :
  datadir g = None -> write_value g returns name value s = (1, s, []).
Proof. intros Hd. unfold write_value. by rewrite Hd. Qed.

Lemma write_value_opens g returns name value s dir :
  datadir g = Some dir ->
  ∃ rest, events_of (write_value g returns name value s)
          = Ev_open (sink_file dir name) :: rest.
Proof.
  intros Hd. unfold write_value. rewrite Hd. fold (sink_file dir name).
  rewrite run_bind. unfold call at 1. cbn [events_of snd app]. eauto.
Qed.

Lemma write_heartbeat_events g returns s :
  events_of (write_heartbeat g returns s) =
  Ev_time :: events_of (write_value g returns "heartbeat"
                          (snprintf VALUE_MAX (fmt_d (to_llong (returns (calls s)))))
                          (State (co2mon_data s) (S (calls s)))).
Proof.
  unfold write_heartbeat. rewrite !run_bind. unfold call.
  cbn [events_of value_of state_of fst snd app mret M_ret].
  by rewrite app_nil_r.
Qed.

Lemma write_co2_influx_run returns indeterminate value s :
  write_co2_influx returns indeterminate value s =
  (indeterminate (S (S (calls s))), State (co2mon_data s) (S (S (calls s))),
   [Ev_time;
    Ev_post_http [INFLUX_MEAS "co2"; INFLUX_F_INT "value" value;
                  INFLUX_TS (to_llong (to_llong (returns (calls s)) * 1000000000));
                  INFLUX_END]]).
Proof. reflexivity. Qed.

Lemma write_temperature_influx_run returns indeterminate value s :
  write_temperature_influx returns indeterminate value s =
  (indeterminate (S (S (calls s))), State (co2mon_data s) (S (S (calls s))),
   [Ev_time;
    Ev_post_http [INFLUX_MEAS "temp"; INFLUX_F_FLT "value" value 4;
                  INFLUX_TS (to_llong (to_llong (returns (calls s)) * 1000000000));
                  INFLUX_END]]).
Proof. reflexivity. Qed.

(** C2 (the code departs from it): both InfluxDB writers end without a
    [return] statement, so the value their caller tests is the
    indeterminate one, whatever [post_http] returned. *)
Theorem influx_write_result_is_indeterminate (returns indeterminate : nat -> Z)
    (value : string) (s : state) :
  value_of (write_temperature_influx returns indeterminate value s)
    = indeterminate (S (S (calls s))) ∧
  value_of (write_co2_influx returns indeterminate value s)
    = indeterminate (S (S (calls s))).
Proof. split; reflexivity. Qed.

(** A post answered by -1 still commits the reading when the
    indeterminate value happens to be non-zero, and a post answered by 0
    leaves it uncommitted when that value happens to be zero. *)
Example influx_commit_ignores_post :
  co2mon_data (state_of (loop_body influx_sink (always (-1)) (always 1)
                           frame_cntr initial_state)) !!! 0x50%nat = 412 ∧
  co2mon_data (state_of (loop_body influx_sink (always 0) (always 1)
                           frame_cntr initial_state)) !!! 0x50%nat = 412 ∧
  co2mon_data (state_of (loop_body influx_sink (always (-1)) (always 0)
                           frame_cntr initial_state)) !!! 0x50%nat = 0 ∧
  co2mon_data (state_of (loop_body influx_sink (always 0) (always 0)
                           frame_cntr initial_state)) !!! 0x50%nat = 0.
Proof. repeat split; reflexivity. Qed.

(** ** The CO2 range filter *)

(** C4: a valid CNTR frame whose raw value exceeds 3000 is dropped: the
    iteration ends with the same state and no event, whatever the array
    holds; a raw value of at most 3000 that differs from the array entry
    is handed to the sink. *)
Theorem co2_range_filter g returns indeterminate (result : co2mon_data_t) :
  well_formed result -> code_of result = CODE_CNTR ->
  let w := raw_of result in
  (3000 < w -> ∀ s, loop_body g returns indeterminate result s = (Body_end, s, [])) ∧
  (w <= 3000 -> ∀ s, co2mon_data s !!! Z.to_nat CODE_CNTR ≠ w ->
     let sw := sink_write g returns indeterminate CODE_CNTR w s in
     events_of (loop_body g returns indeterminate result s) =
       echo g CODE_CNTR w ++ events_of sw
         ++ events_of (heartbeat g returns
                         (committed CODE_CNTR w (value_of sw) (state_of sw))) ∧
     (is_Some (influx_db g) ->
        events_of sw =
          [Ev_time;
           Ev_post_http [INFLUX_MEAS "co2";
                         INFLUX_F_INT "value" (snprintf VALUE_MAX (fmt_d w));
                         INFLUX_TS (to_llong (to_llong (returns (calls s)) * 1000000000));
                         INFLUX_END]]) ∧
     (influx_db g = None -> ∀ dir, datadir g = Some dir ->
        ∃ rest, events_of sw = Ev_open (sink_file dir "CntR") :: rest)).
Proof.
  intros Hwf Hc w. split.
  - intros Hbig s. rewrite loop_body_well_formed by done. rewrite Hc.
    change (CODE_CNTR =? CODE_TAMB) with false. rewrite Z.eqb_refl. cbv iota.
    unfold case_CNTR. fold w. replace (3000 <? w) with true by lia. reflexivity.
  - intros Hle s Hne sw.
    assert (Hrec : recognised (code_of result) (raw_of result)) by (by right).
    rewrite <- Hc in Hne.
    destruct (loop_body_changed g returns indeterminate result s Hwf Hrec Hne)
      as [Hev _].
    rewrite Hc in Hev. fold w sw in Hev. split; [done|]. split.
    + intros [db Hdb]. subst sw. unfold sink_write. rewrite Hdb.
      change (CODE_CNTR =? CODE_TAMB) with false. cbv iota.
      by rewrite write_co2_influx_run.
    + intros Hdb dir Hdir. subst sw. unfold sink_write. rewrite Hdb.
      by apply write_value_opens.
Qed.

Lemma co2_range_filter_witness :
  loop_body file_sink all_zero all_zero frame_cntr_3001 initial_state
    = (Body_end, initial_state, []) ∧
  ∃ rest,
    events_of (sink_write file_sink all_zero all_zero CODE_CNTR 3000 initial_state)
    = Ev_open "/var/co2/CntR" :: rest.
Proof.
  split.
  - apply (co2_range_filter file_sink all_zero all_zero frame_cntr_3001);
      [by split | reflexivity | by vm_compute].
  - destruct (co2_range_filter file_sink all_zero all_zero frame_cntr_3000)
      as [_ Hsmall]; [by split | reflexivity |].
    destruct (Hsmall ltac:(by vm_compute) initial_state ltac:(by vm_compute))
      as (_ & _ & Hfile).
    exact (Hfile eq_refl "/var/co2"%string eq_refl).
Defined.

(** ** The initial array *)

(** C6: every entry of the array starts at 0, so a first valid TAMB or
    CNTR reading of raw value 0 equals the entry of its code: the sink
    write is skipped and the array stays as it was. *)
Theorem first_zero_reading_suppressed g returns indeterminate
    (result : co2mon_data_t) (s : state) :
  well_formed result ->
  code_of result = CODE_TAMB ∨ code_of result = CODE_CNTR ->
  raw_of result = 0 ->
  co2mon_data s !!! Z.to_nat (code_of result)
    = co2mon_data initial_state !!! Z.to_nat (code_of result) ->
  co2mon_data initial_state !!! Z.to_nat (code_of result) = 0 ∧
  events_of (loop_body g returns indeterminate result s) =
    echo g (code_of result) 0 ++ events_of (heartbeat g returns s) ∧
  co2mon_data (state_of (loop_body g returns indeterminate result s)) = co2mon_data s.
Proof.
  intros Hwf Hc Hw Hs.
  assert (Hzero : co2mon_data initial_state !!! Z.to_nat (code_of result) = 0)
    by apply initial_state_zero, code_index_lt.
  assert (Hrec : recognised (code_of result) (raw_of result)).
  { destruct Hc; [by left | right; split; [done | lia]]. }
  destruct (loop_body_unchanged g returns indeterminate result s Hwf Hrec) as [Hev Hd].
  { by rewrite Hs, Hzero, Hw. }
  rewrite Hw in Hev. done.
Qed.

Lemma first_zero_reading_suppressed_witness :
  events_of (loop_body influx_sink all_zero (always 1) frame_tamb_zero initial_state) = [] ∧
  events_of (loop_body influx_sink all_zero (always 1) frame_cntr_zero initial_state) = [].
Proof.
  split.
  - apply (first_zero_reading_suppressed influx_sink all_zero (always 1)
             frame_tamb_zero initial_state);
      [by split | by left | reflexivity | reflexivity].
  - apply (first_zero_reading_suppressed influx_sink all_zero (always 1)
             frame_cntr_zero initial_state);
      [by split | by right | reflexivity | reflexivity].
Defined.

(** ** Running without a data directory *)

(** C10: without a data directory [write_value] touches no file and
    returns 1; so with neither a data directory nor an InfluxDB database,
    every changed TAMB or in-range CNTR reading stores its raw value in
    the array although the iteration opens no file and posts nothing. *)
Theorem write_value_succeeds_without_datadir g returns indeterminate :
  datadir g = None ->
  (∀ name value s, write_value g returns name value s = (1, s, [])) ∧
  (influx_db g = None ->
   ∀ (result : co2mon_data_t) s,
     well_formed result -> recognised (code_of result) (raw_of result) ->
     cache_wf s ->
     co2mon_data s !!! Z.to_nat (code_of result) ≠ raw_of result ->
     let out := loop_body g returns indeterminate result s in
     co2mon_data (state_of out) = <[Z.to_nat (code_of result) := raw_of result]> (co2mon_data s) ∧
     co2mon_data (state_of out) !!! Z.to_nat (code_of result) = raw_of result ∧
     events_of out = echo g (code_of result) (raw_of result) ++ [Ev_time]).
Proof.
  intros Hdir. split; [intros; by apply write_value_no_datadir|].
  intros Hdb result s Hwf Hrec Hlen Hne out.
  destruct (loop_body_changed g returns indeterminate result s Hwf Hrec Hne)
    as [Hev Hdata].
  fold out in Hev, Hdata.
  assert (Hsw : sink_write g returns indeterminate (code_of result) (raw_of result) s
                = (1, s, [])).
  { unfold sink_write. rewrite Hdb. by apply write_value_no_datadir. }
  rewrite Hsw in Hev, Hdata. cbn in Hdata. split; [done|]. split.
  - rewrite Hdata. apply list_lookup_total_insert_eq. rewrite Hlen.
    apply code_index_lt.
  - rewrite Hev. cbn [events_of value_of state_of fst snd app]. f_equal.
    unfold heartbeat. rewrite Hdb, write_heartbeat_events.
    by rewrite write_value_no_datadir.
Qed.

Lemma write_value_succeeds_without_datadir_witness :
  write_value no_sink all_zero "CntR" "412" initial_state = (1, initial_state, []) ∧
  events_of (loop_body no_sink all_zero all_zero frame_cntr initial_state)
    = echo no_sink (code_of frame_cntr) (raw_of frame_cntr) ++ [Ev_time].
Proof.
  destruct (write_value_succeeds_without_datadir no_sink all_zero all_zero eq_refl)
    as [Hwv Hloop].
  split; [apply Hwv|].
  apply (Hloop eq_refl frame_cntr initial_state).
  - by split.
  - right. split; [reflexivity | by vm_compute].
  - reflexivity.
  - by vm_compute.
Defined.

(** ** The heartbeat *)

(** C5 as stated fails: with neither sink configured a TAMB reading is
    processed and InfluxDB is inactive, yet no heartbeat file is opened or
    written. *)
Lemma heartbeat_without_datadir_writes_nothing :
  ¬ (heartbeat_written
       (events_of (loop_body no_sink all_zero all_zero frame_tamb initial_state))
     ↔ influx_db no_sink = None).
Proof.
  intros [_ Hback]. destruct (Hback eq_refl) as (dir & fd & t & Hopen & _).
  vm_compute in Hopen.
  apply elem_of_cons in Hopen as [?|Hopen]; [done|].
  apply elem_of_cons in Hopen as [?|Hopen]; [done|].
  by apply elem_of_nil in Hopen.
Qed.

(** The predicate is met when there is a data directory. *)
Example heartbeat_written_with_datadir :
  heartbeat_written
    (events_of (loop_body file_sink all_zero all_zero frame_tamb initial_state)).
Proof.
  exists "/var/co2"%string, 0, 0. vm_compute.
  split; repeat first [apply list_elem_of_here | apply list_elem_of_further].
Qed.

(** The events of one processed reading, seen from the heartbeat. *)
Lemma heartbeat_events g returns indeterminate (result : co2mon_data_t) (s : state) :
  well_formed result -> recognised (code_of result) (raw_of result) ->
  let evs := events_of (loop_body g returns indeterminate result s) in
  (is_Some (influx_db g) -> ∀ f, Ev_open f ∉ evs) ∧
  (influx_db g = None ->
     ∃ pre s1,
       evs = pre ++ events_of (write_heartbeat g returns s1) ∧
       (datadir g = None -> events_of (write_heartbeat g returns s1) = [Ev_time]) ∧
       (∀ dir, datadir g = Some dir ->
          ∃ rest, events_of (write_heartbeat g returns s1)
                  = Ev_time :: Ev_open (sink_file dir "heartbeat") :: rest)).
Proof.
  intros Hwf Hrec evs. subst evs.
  rewrite loop_body_recognised by done. split.
  - intros [db Hdb] f.
    unfold heartbeat, sink_write, echo. rewrite Hdb.
    destruct (_ !!! _ =? _), (daemonize g), (code_of result =? CODE_TAMB);
      rewrite ?write_temperature_influx_run, ?write_co2_influx_run;
      cbn [events_of value_of state_of fst snd app mret M_ret];
      rewrite ?elem_of_cons, ?elem_of_nil; intros Hin;
      repeat (destruct Hin as [Hin|Hin]; [discriminate|]); done.
  - intros Hdb.
    assert (Hhb : ∀ s1,
      (datadir g = None -> events_of (write_heartbeat g returns s1) = [Ev_time]) ∧
      (∀ dir, datadir g = Some dir ->
         ∃ rest, events_of (write_heartbeat g returns s1)
                 = Ev_time :: Ev_open (sink_file dir "heartbeat") :: rest)).
    { intros s1. rewrite write_heartbeat_events. split.
      - intros Hdir. by rewrite write_value_no_datadir.
      - intros dir Hdir.
        destruct (write_value_opens g returns "heartbeat"
                    (snprintf VALUE_MAX (fmt_d (to_llong (returns (calls s1)))))
                    (State (co2mon_data s1) (S (calls s1))) dir Hdir) as [rest ->].
        eauto. }
    unfold heartbeat. rewrite Hdb.
    destruct (_ !!! _ =? _); cbn [events_of snd].
    + eexists _, _. split; [reflexivity | apply Hhb].
    + eexists _, _. split; [by rewrite app_assoc | apply Hhb].
Qed.



(** ** The reconnection supervisor *)

Lemma keep_events_app p evs1 evs2 :
  keep_events p (evs1 ++ evs2) = keep_events p evs1 ++ keep_events p evs2.
Proof.
  induction evs1 as [|e evs1 IH]; [done|]. cbn. rewrite IH. by destruct (p e).
Qed.

Lemma count_keep_events p evs :
  count_events p evs = length (keep_events p evs).
Proof.
  induction evs as [|e evs IH]; [done|]. cbn. rewrite IH. by destruct (p e).
Qed.

Lemma none_ret {A} p (a : A) : emits_none p (mret a).
Proof. done. Qed.

Lemma none_bind {A B} p (m : M A) (f : A -> M B) :
  emits_none p m -> (∀ a, emits_none p (f a)) -> emits_none p (m ≫= f).
Proof.
  intros Hm Hf s. rewrite run_bind. cbn [events_of snd].
  by rewrite keep_events_app, Hm, Hf.
Qed.

Lemma none_emit p e : p e = false -> emits_none p (emit e).
Proof. intros He s. cbn. by rewrite He. Qed.

Lemma none_call p returns e : p e = false -> emits_none p (call returns e).
Proof. intros He s. cbn. by rewrite He. Qed.

Lemma none_no_return p indeterminate : emits_none p (no_return_value indeterminate).
Proof. done. Qed.

Lemma none_load p r0 : emits_none p (load r0).
Proof. done. Qed.

Lemma none_store p r0 w : emits_none p (store r0 w).
Proof. done. Qed.

Lemma none_if {A} p (b : bool) (m1 m2 : M A) :
  emits_none p m1 -> emits_none p m2 -> emits_none p (if b then m1 else m2).
Proof. by destruct b. Qed.

Create HintDb quiet.
#[local] Hint Resolve none_ret none_no_return none_load none_store : quiet.
#[local] Hint Extern 1 (emits_none _ (emit _)) => apply none_emit; reflexivity : quiet.
#[local] Hint Extern 1 (emits_none _ (call _ _)) => apply none_call; reflexivity : quiet.
#[local] Hint Extern 2 (emits_none _ (_ ≫= _)) => apply none_bind; [|intros] : quiet.
#[local] Hint Extern 2 (emits_none _ (if _ then _ else _)) => apply none_if : quiet.
#[local] Hint Extern 2 (emits_none _ (match ?o with Some _ => _ | None => _ end)) =>
  destruct o : quiet.

Section Quiet.

Variable g : globals.
Variables returns indeterminate : nat -> Z.

(** Either of the two supervisor events. *)
Variable p : event -> bool.
Hypothesis p_supervisor : p = is_unable_to_open ∨ p = is_sleep.

Ltac quiet := destruct p_supervisor as [-> | ->]; auto 30 with quiet.

Lemma none_write_data fd value : emits_none p (write_data returns fd value).
Proof. unfold write_data, lock. quiet. Qed.

Lemma none_write_value name value : emits_none p (write_value g returns name value).
Proof.
  pose proof none_write_data. unfold write_value.
  destruct (datadir g); [|apply none_ret].
  apply none_bind; [quiet|]. intros fd. apply none_if.
  - quiet.
  - apply none_bind; [done|]. intros r. quiet.
Qed.

Lemma none_write_heartbeat : emits_none p (write_heartbeat g returns).
Proof.
  pose proof none_write_value. unfold write_heartbeat.
  apply none_bind; [quiet|]. intros t. apply none_bind; [done|]. intros. apply none_ret.
Qed.

Lemma none_write_temperature_influx value :
  emits_none p (write_temperature_influx returns indeterminate value).
Proof. unfold write_temperature_influx. quiet. Qed.

Lemma none_write_co2_influx value :
  emits_none p (write_co2_influx returns indeterminate value).
Proof. unfold write_co2_influx. quiet. Qed.

Lemma none_loop_body result : emits_none p (loop_body g returns indeterminate result).
Proof.
  pose proof none_write_value. pose proof none_write_heartbeat.
  pose proof none_write_temperature_influx. pose proof none_write_co2_influx.
  unfold loop_body, case_TAMB, case_CNTR, case_default.
  destruct p_supervisor as [-> | ->]; auto 40 with quiet.
Qed.

Lemma none_read_loop reads : emits_none p (read_loop g returns indeterminate reads).
Proof.
  pose proof none_loop_body.
  induction reads as [|[r result] rest IH]; cbn [read_loop]; [apply none_ret|].
  apply none_bind; [quiet|]. intros _. apply none_if; [quiet|].
  apply none_bind; [done|]. by intros _.
Qed.

Lemma none_device_loop dev : emits_none p (device_loop g returns indeterminate dev).
Proof.
  pose proof none_read_loop. unfold device_loop.
  apply none_bind; [quiet|]. intros _. apply none_if; [quiet|done].
Qed.

End Quiet.

Lemma main_loop_from_failed g returns indeterminate flag rest s :
  main_loop_from g returns indeterminate flag (None :: rest) s =
  let tail := main_loop_from g returns indeterminate true rest s in
  (value_of tail, state_of tail,
   Ev_open_device (devicefile g)
     :: (if flag then [] else [Ev_stderr ("Unable to open CO2 device" +:+ LF)])
     ++ Ev_sleep 1 :: events_of tail).
Proof.
  cbn [main_loop_from]. unfold open_device. destruct flag; run; by tidy.
Qed.

Lemma session_ends_returns g returns indeterminate dev s :
  session_ends dev ->
  value_of (device_loop g returns indeterminate dev s) ≠ Awaiting_read.
Proof.
  intros Hend. unfold device_loop. run.
  destruct (magic_table_ok dev) eqn:Hok; cbn [negb]; run; [|done].
  rewrite read_loop_end. destruct Hend as [?|Hex]; [congruence|].
  by rewrite decide_True.
Qed.

Lemma main_loop_from_opened g returns indeterminate flag dev rest s :
  session_ends dev ->
  main_loop_from g returns indeterminate flag (Some dev :: rest) s =
  let sess := device_loop g returns indeterminate dev s in
  let tail := main_loop_from g returns indeterminate false rest (state_of sess) in
  (value_of tail, state_of tail,
   Ev_open_device (devicefile g) :: events_of sess ++ Ev_close_device :: events_of tail).
Proof.
  intros Hend. cbn [main_loop_from]. unfold open_device. run.
  pose proof (session_ends_returns g returns indeterminate dev s Hend) as Hret.
  destruct (value_of (device_loop g returns indeterminate dev s)); [| |done];
    run; by tidy.
Qed.

Lemma failure_streaks_failed rest :
  failure_streaks (None :: rest) =
  if head_failed rest then failure_streaks rest else S (failure_streaks rest).
Proof. by destruct rest as [|[dev|] rest]. Qed.

Lemma main_loop_from_diagnostics g returns indeterminate opens :
  all_sessions_end opens ->
  ∀ flag s,
    (count_events is_unable_to_open
       (events_of (main_loop_from g returns indeterminate flag opens s))
     + (if flag && head_failed opens then 1 else 0))%nat
    = failure_streaks opens.
Proof.
  induction 1 as [|[dev|] rest Hdev Hrest IH]; intros flag s.
  - cbn. by rewrite andb_false_r.
  - rewrite main_loop_from_opened by done. cbn [events_of snd count_events head_failed].
    rewrite andb_false_r, !count_keep_events, keep_events_app,
      (none_device_loop g returns indeterminate is_unable_to_open) by (by left).
    cbn [app keep_events is_unable_to_open]. rewrite <- count_keep_events.
    specialize (IH false (state_of (device_loop g returns indeterminate dev s))).
    cbn in IH |- *. lia.
  - rewrite main_loop_from_failed, failure_streaks_failed.
    cbn [events_of snd count_events head_failed is_unable_to_open].
    specialize (IH true s). cbn [andb] in IH.
    destruct flag; cbn [app count_events is_unable_to_open andb] in *;
      change (String.eqb _ _) with true; destruct (head_failed rest); lia.
Qed.

Lemma main_loop_from_sleeps g returns indeterminate opens :
  all_sessions_end opens ->
  ∀ flag s,
    keep_events is_sleep (events_of (main_loop_from g returns indeterminate flag opens s))
    = replicate (failures opens) (Ev_sleep 1).
Proof.
  induction 1 as [|[dev|] rest Hdev Hrest IH]; intros flag s.
  - done.
  - rewrite main_loop_from_opened by done. cbn [events_of snd keep_events is_sleep].
    rewrite keep_events_app,
      (none_device_loop g returns indeterminate is_sleep) by (by right).
    cbn [app keep_events is_sleep failures]. apply IH.
  - rewrite main_loop_from_failed. cbn [events_of snd keep_events is_sleep failures].
    rewrite keep_events_app. destruct flag; cbn; by rewrite IH.
Qed.

Lemma main_loop_from_flag g returns indeterminate opens :
  all_sessions_end opens ->
  ∀ flag s,
    value_of (main_loop_from g returns indeterminate flag opens s)
    = Connecting (match opens with [] => flag | _ => last_failed opens end).
Proof.
  induction 1 as [|[dev|] rest Hdev Hrest IH]; intros flag s.
  - done.
  - rewrite main_loop_from_opened by done. cbn [value_of fst]. rewrite IH.
    by destruct rest.
  - rewrite main_loop_from_failed. cbn [value_of fst]. rewrite IH.
    by destruct rest.
Qed.

(** C7: the supervisor prints the "Unable to open CO2 device" line once
    per run of consecutive failed opens: over any script of open outcomes
    the number of such lines is the number of failure runs, every failed
    open is followed by one [sleep(1)], a failed open prints the line
    exactly when the flag is clear, and the flag is clear after every
    successful open. *)
Theorem unable_to_open_once_per_streak g returns indeterminate
    (opens : list (option device)) (s : state) :
  all_sessions_end opens ->
  let out := main_loop g returns indeterminate opens s in
  count_events is_unable_to_open (events_of out) = failure_streaks opens ∧
  keep_events is_sleep (events_of out) = replicate (failures opens) (Ev_sleep 1) ∧
  value_of out = Connecting (last_failed opens) ∧
  (∀ flag rest s',
     events_of (main_loop_from g returns indeterminate flag (None :: rest) s') =
     Ev_open_device (devicefile g)
       :: (if flag then [] else [Ev_stderr ("Unable to open CO2 device" +:+ LF)])
       ++ Ev_sleep 1
       :: events_of (main_loop_from g returns indeterminate true rest s')) ∧
  (∀ flag dev rest s',
     session_ends dev ->
     let sess := device_loop g returns indeterminate dev s' in
     events_of (main_loop_from g returns indeterminate flag (Some dev :: rest) s') =
     Ev_open_device (devicefile g) :: events_of sess
       ++ Ev_close_device
       :: events_of (main_loop_from g returns indeterminate false rest (state_of sess))).
Proof.
  intros Hends out. subst out. unfold main_loop.
  split; [|split; [|split; [|split]]].
  - pose proof (main_loop_from_diagnostics g returns indeterminate opens Hends false s)
      as Hcount. cbn [andb] in Hcount. lia.
  - by apply main_loop_from_sleeps.
  - rewrite main_loop_from_flag by done. by destruct opens.
  - intros flag rest s'. by rewrite main_loop_from_failed.
  - intros flag dev rest s' Hend. by rewrite main_loop_from_opened.
Qed.

Lemma unable_to_open_once_per_streak_witness :
  count_events is_unable_to_open
    (events_of (main_loop file_sink all_zero all_zero
                  [None; None; None; Some (Device true [(0, [])]); None;
                   Some (Device false [])]
                  initial_state)) = 2%nat.
Proof.
  apply (unable_to_open_once_per_streak file_sink all_zero all_zero
           [None; None; None; Some (Device true [(0, [])]); None; Some (Device false [])]
           initial_state).
  unfold all_sessions_end. repeat apply Forall_cons_2; try exact I; [| |apply Forall_nil_2].
  - right. left. cbn. lia.
  - by left.
Defined.


(** ** Temperature text *)

Lemma substring_all (n : nat) (s : string) :
  (String.length s <= n)%nat -> String.substring 0 n s = s.
Proof.
  revert n. induction s as [|c s IH]; intros [|n] Hlen; cbn in *; try done; try lia.
  f_equal. apply IH. lia.
Qed.

Lemma all_from_spec (p : Z -> bool) (n : nat) (from : Z) :
  all_from p n from = true -> ∀ w, from <= w < from + Z.of_nat n -> p w = true.
Proof.
  revert from. induction n as [|n IH]; intros from Hall w Hw; [lia|].
  cbn [all_from] in Hall. apply andb_true_iff in Hall as [Hhere Hrest].
  destruct (decide (w = from)) as [->|Hne]; [done|].
  apply (IH (from + 1)); [done|lia].
Qed.

(** Every 16-bit raw value, checked by evaluation. *)
Lemma temperature_check_all : all_from temperature_check (Z.to_nat 65536) 0 = true.
Proof. vm_compute. reflexivity. Qed.

Lemma temperature_check_range (w : Z) :
  0 <= w < 65536 -> temperature_check w = true.
Proof.
  intros Hw. apply (all_from_spec _ _ _ temperature_check_all). lia.
Qed.




(** ** write_data *)

Lemma run_call returns e s :
  call returns e s = (returns (calls s), State (co2mon_data s) (S (calls s)), [e]).
Proof. reflexivity. Qed.

Ltac run_calls :=
  repeat first
    [ rewrite run_bind
    | rewrite run_call
    | progress cbn [value_of state_of events_of fst snd negb emit load store
                    mret M_ret co2mon_data calls app] ].

Lemma write_data_run returns fd value s :
  let n := calls s in
  let data := snprintf (VALUE_MAX + 1) (value +:+ LF) in
  write_data returns fd value s =
  if negb (returns n =? 0) then
    (0, State (co2mon_data s) (S n), [Ev_fcntl fd F_WRLCK; Ev_perror "lock"])
  else if negb (returns (S n) =? 0) then
    (0, State (co2mon_data s) (S (S n)),
     [Ev_fcntl fd F_WRLCK; Ev_ftruncate fd; Ev_perror "ftruncate"])
  else if negb (returns (S (S n)) =? Z.of_nat (String.length data)) then
    (0, State (co2mon_data s) (S (S (S n))),
     [Ev_fcntl fd F_WRLCK; Ev_ftruncate fd; Ev_write fd data; Ev_perror "write"])
  else if negb (returns (S (S (S n))) =? 0) then
    (0, State (co2mon_data s) (S (S (S (S n)))),
     [Ev_fcntl fd F_WRLCK; Ev_ftruncate fd; Ev_write fd data; Ev_fcntl fd F_UNLCK;
      Ev_perror "unlock"])
  else
    (1, State (co2mon_data s) (S (S (S (S n)))),
     [Ev_fcntl fd F_WRLCK; Ev_ftruncate fd; Ev_write fd data; Ev_fcntl fd F_UNLCK]).
Proof.
  intros n data. subst n. unfold write_data, lock. fold data.
  rewrite run_bind, !run_call. cbn [value_of state_of events_of fst snd calls co2mon_data].
  destruct (returns (calls s) =? 0); cbn [negb]; [|run; reflexivity].
  rewrite run_bind, !run_call. cbn [value_of state_of events_of fst snd calls co2mon_data].
  destruct (returns (S (calls s)) =? 0); cbn [negb]; [|run; reflexivity].
  rewrite run_bind, !run_call. cbn [value_of state_of events_of fst snd calls co2mon_data].
  destruct (returns (S (S (calls s))) =? _); cbn [negb]; [|run; reflexivity].
  rewrite run_bind, !run_call. cbn [value_of state_of events_of fst snd calls co2mon_data].
  destruct (returns (S (S (S (calls s)))) =? 0); cbn [negb]; run; reflexivity.
Qed.

Ltac in_list := repeat first [apply list_elem_of_here | apply list_elem_of_further].
Ltac not_in_list :=
  rewrite ?elem_of_cons, ?elem_of_nil; intros Hin;
  repeat (destruct Hin as [Hin|Hin]; [discriminate|]); done.

(** X1: [write_data] returns 1 exactly when the lock, the truncation, the
    write of the whole buffer and the unlock all succeed, and 0 otherwise. *)
Theorem write_data_result returns fd value s :
  let n := calls s in
  let data := snprintf (VALUE_MAX + 1) (value +:+ LF) in
  let r := value_of (write_data returns fd value s) in
  (r = 1 ↔ returns n = 0 ∧ returns (S n) = 0
           ∧ returns (S (S n)) = Z.of_nat (String.length data)
           ∧ returns (S (S (S n))) = 0) ∧
  (r = 0 ∨ r = 1).
Proof.
  intros n data r. subst r. rewrite write_data_run. fold n data.
  destruct (Z.eqb_spec (returns n) 0) as [H1|H1]; cbn [negb];
    [|split; [split; [done | tauto] | by left]].
  destruct (Z.eqb_spec (returns (S n)) 0) as [H2|H2]; cbn [negb];
    [|split; [split; [done | tauto] | by left]].
  destruct (Z.eqb_spec (returns (S (S n))) (Z.of_nat (String.length data))) as [H3|H3];
    cbn [negb]; [|split; [split; [done | tauto] | by left]].
  destruct (Z.eqb_spec (returns (S (S (S n)))) 0) as [H4|H4]; cbn [negb];
    [|split; [split; [done | tauto] | by left]].
  split; [done | by right].
Qed.

(** X2: [write_data] writes only with the lock taken and the file
    truncated, and releases the lock only after a complete write: after a
    failed truncation or a short write it returns with the lock held. *)
Theorem write_data_lock_discipline returns fd value s :
  let n := calls s in
  let data := snprintf (VALUE_MAX + 1) (value +:+ LF) in
  let evs := events_of (write_data returns fd value s) in
  (∃ rest, evs = Ev_fcntl fd F_WRLCK :: rest) ∧
  (Ev_write fd data ∈ evs ↔ returns n = 0 ∧ returns (S n) = 0) ∧
  (∀ fd' d, Ev_write fd' d ∈ evs -> fd' = fd ∧ d = data) ∧
  (Ev_fcntl fd F_UNLCK ∈ evs ↔
     returns n = 0 ∧ returns (S n) = 0
     ∧ returns (S (S n)) = Z.of_nat (String.length data)).
Proof.
  intros n data evs. subst evs. rewrite write_data_run. fold n data.
  assert (Hw : ∀ l fd' d, Ev_write fd' d ∈ l ->
               Forall (λ e, ∀ f x, e = Ev_write f x -> f = fd ∧ x = data) l ->
               fd' = fd ∧ d = data).
  { intros l fd' d Hin Hall. rewrite Forall_forall in Hall. by eapply Hall. }
  destruct (Z.eqb_spec (returns n) 0) as [H1|H1]; cbn [negb events_of snd].
  2:{ split; [eauto|]. split; [split; [not_in_list | tauto]|].
      split; [|split; [not_in_list | tauto]].
      intros fd' d. not_in_list. }
  destruct (Z.eqb_spec (returns (S n)) 0) as [H2|H2]; cbn [negb events_of snd].
  2:{ split; [eauto|]. split; [split; [not_in_list | tauto]|].
      split; [|split; [not_in_list | tauto]].
      intros fd' d. not_in_list. }
  destruct (Z.eqb_spec (returns (S (S n))) (Z.of_nat (String.length data))) as [H3|H3];
    cbn [negb events_of snd].
  2:{ split; [eauto|]. split; [split; [done | intros; in_list]|].
      split; [|split; [not_in_list | tauto]].
      intros fd' d Hin. apply (Hw _ _ _ Hin).
      repeat constructor; intros; simplify_eq; done. }
  destruct (Z.eqb_spec (returns (S (S (S n)))) 0) as [H4|H4]; cbn [negb events_of snd].
  all: split; [eauto|]; split; [split; [done | intros; in_list]|].
  all: split; [|split; [done | intros; in_list]].
  all: intros fd' d Hin; apply (Hw _ _ _ Hin).
  all: repeat constructor; intros; simplify_eq; done.
Qed.

(** ** The text that reaches the file *)

Lemma substring_length (n : nat) (s : string) :
  String.length (String.substring 0 n s) = Nat.min n (String.length s).
Proof.
  revert n. induction s as [|c s IH]; intros [|n]; cbn; try done.
  by rewrite IH.
Qed.

Lemma substring_append_short (n : nat) (a b : string) :
  (n <= String.length a)%nat ->
  String.substring 0 n (a +:+ b) = String.substring 0 n a.
Proof.
  revert n. induction a as [|c a IH]; intros [|n] Hn; cbn in Hn; try lia.
  - by destruct b.
  - done.
  - change (String c a +:+ b) with (String c (a +:+ b)).
    cbn [String.substring]. f_equal. apply IH. lia.
Qed.

Lemma append_length (a b : string) :
  String.length (a +:+ b) = (String.length a + String.length b)%nat.
Proof.
  induction a as [|c a IH]; [done|].
  change (String c a +:+ b) with (String c (a +:+ b)).
  cbn [String.length]. by rewrite IH.
Qed.

Lemma snprintf_line (value : string) :
  (String.length value <= 19)%nat ->
  snprintf (VALUE_MAX + 1) (value +:+ LF) = value +:+ LF.
Proof.
  intros Hlen. unfold snprintf, VALUE_MAX. apply substring_all.
  rewrite append_length. cbn. lia.
Qed.



(** ** write_value with a data directory *)

Lemma write_value_run g returns name value s dir :
  datadir g = Some dir ->
  let fd := returns (calls s) in
  let wd := write_data returns fd value (State (co2mon_data s) (S (calls s))) in
  write_value g returns name value s =
  if fd =? -1 then
    (0, State (co2mon_data s) (S (calls s)),
     [Ev_open (sink_file dir name); Ev_perror (sink_file dir name)])
  else
    (value_of wd, state_of wd,
     Ev_open (sink_file dir name) :: events_of wd ++ [Ev_close fd]).
Proof.
  intros Hdir fd wd. unfold write_value. rewrite Hdir. fold (sink_file dir name).
  rewrite run_bind, !run_call.
  cbn [value_of state_of events_of fst snd calls co2mon_data]. fold fd.
  destruct (fd =? -1); [run; reflexivity|].
  rewrite run_bind. fold wd. run. by rewrite app_nil_r.
Qed.

(** X4: with a data directory, [write_value] returns 1 exactly when the
    open and the four steps of [write_data] succeed, and then it has made
    exactly the calls open, lock, truncate, write of the buffer, unlock
    and close, in this order; otherwise it returns 0. *)
Theorem write_value_protocol g returns name value s dir :
  datadir g = Some dir ->
  let n := calls s in
  let fd := returns n in
  let data := snprintf (VALUE_MAX + 1) (value +:+ LF) in
  let out := write_value g returns name value s in
  (value_of out = 1 ↔
     fd ≠ -1 ∧ returns (S n) = 0 ∧ returns (S (S n)) = 0
     ∧ returns (S (S (S n))) = Z.of_nat (String.length data)
     ∧ returns (S (S (S (S n)))) = 0) ∧
  (value_of out = 1 ->
     events_of out =
       [Ev_open (sink_file dir name); Ev_fcntl fd F_WRLCK; Ev_ftruncate fd;
        Ev_write fd data; Ev_fcntl fd F_UNLCK; Ev_close fd]) ∧
  (value_of out = 0 ∨ value_of out = 1).
Proof.
  intros Hdir n fd data out. subst out. rewrite (write_value_run _ _ _ _ _ dir Hdir).
  fold n fd. destruct (Z.eqb_spec fd (-1)) as [Hfd|Hfd].
  { cbn [value_of fst]. split; [split; [done | tauto]|]. split; [done | by left]. }
  cbn [value_of events_of fst snd].
  rewrite write_data_run. cbn [calls]. fold data.
  destruct (Z.eqb_spec (returns (S n)) 0) as [H1|H1]; cbn [negb];
    [|split; [split; [done | tauto] | split; [done | by left]]].
  destruct (Z.eqb_spec (returns (S (S n))) 0) as [H2|H2]; cbn [negb];
    [|split; [split; [done | tauto] | split; [done | by left]]].
  destruct (Z.eqb_spec (returns (S (S (S n)))) (Z.of_nat (String.length data)))
    as [H3|H3]; cbn [negb];
    [|split; [split; [done | tauto] | split; [done | by left]]].
  destruct (Z.eqb_spec (returns (S (S (S (S n))))) 0) as [H4|H4]; cbn [negb];
    [|split; [split; [done | tauto] | split; [done | by left]]].
  split; [done|]. split; [done | by right].
Qed.

Lemma write_value_protocol_witness :
  value_of (write_value file_sink
              (λ n, match n with 0%nat => 3 | 3%nat => 4 | _ => 0 end)
              "CntR" "412" initial_state) = 1.
Proof.
  apply (write_value_protocol file_sink
           (λ n, match n with 0%nat => 3 | 3%nat => 4 | _ => 0 end)
           "CntR" "412" initial_state "/var/co2" eq_refl).
  repeat split; done.
Defined.

(** X5: with a data directory, [write_value] closes the descriptor it
    got exactly once, as its last call, whatever [write_data] did; when
    the open fails it reports the file name with perror, closes nothing
    and returns 0. *)
Theorem write_value_closes_descriptor g returns name value s dir :
  datadir g = Some dir ->
  let fd := returns (calls s) in
  let out := write_value g returns name value s in
  (fd = -1 ->
     out = (0, State (co2mon_data s) (S (calls s)),
            [Ev_open (sink_file dir name); Ev_perror (sink_file dir name)])) ∧
  (fd ≠ -1 ->
     ∃ mid, events_of out = Ev_open (sink_file dir name) :: mid ++ [Ev_close fd] ∧
            ∀ e, e ∈ mid -> ∀ fd', e ≠ Ev_close fd' ∧ ∀ f, e ≠ Ev_open f).
Proof.
  intros Hdir fd out. subst out. rewrite (write_value_run _ _ _ _ _ dir Hdir).
  fold fd. split; intros Hfd.
  - by destruct (Z.eqb_spec fd (-1)).
  - destruct (Z.eqb_spec fd (-1)) as [|_]; [done|]. cbn [events_of snd].
    eexists. split; [reflexivity|].
    intros e He fd'. rewrite write_data_run in He.
    repeat match type of He with
           | context [if ?b then _ else _] => destruct b
           end; cbn [events_of snd] in He;
      rewrite ?elem_of_cons, ?elem_of_nil in He;
      repeat (destruct He as [He|He]; [by subst e|]); done.
Qed.

Lemma write_value_closes_descriptor_witness :
  write_value file_sink (always (-1)) "Tamb" "21.5000" initial_state
  = (0, State (co2mon_data initial_state) 1,
     [Ev_open "/var/co2/Tamb"; Ev_perror "/var/co2/Tamb"]) ∧
  ∃ mid, events_of (write_value file_sink (always 5) "Tamb" "21.5000" initial_state)
         = Ev_open "/var/co2/Tamb" :: mid ++ [Ev_close 5].
Proof.
  split.
  - apply (write_value_closes_descriptor file_sink (always (-1)) "Tamb" "21.5000"
             initial_state "/var/co2" eq_refl). reflexivity.
  - destruct (write_value_closes_descriptor file_sink (always 5) "Tamb" "21.5000"
                initial_state "/var/co2" eq_refl) as [_ Hclose].
    destruct (Hclose ltac:(done)) as (mid & Hev & _). by exists mid.
Defined.


(** ** Codes other than TAMB and CNTR *)

Lemma loop_body_unknown g returns indeterminate result s :
  well_formed result ->
  code_of result ≠ CODE_TAMB -> code_of result ≠ CODE_CNTR ->
  loop_body g returns indeterminate result s =
  (Body_end,
   State (<[Z.to_nat (code_of result) := raw_of result]> (co2mon_data s)) (calls s),
   if print_unknown g && negb (daemonize g)
   then [Ev_printf ("0x" +:+ fmt_02hhx (code_of result) +:+ TAB
                    +:+ fmt_d (raw_of result) +:+ LF)]
   else []).
Proof.
  intros Hwf Ht Hc. rewrite loop_body_well_formed by done.
  destruct (Z.eqb_spec (code_of result) CODE_TAMB) as [|_]; [done|].
  destruct (Z.eqb_spec (code_of result) CODE_CNTR) as [|_]; [done|].
  unfold case_default. destruct (print_unknown g && negb (daemonize g)); run; reflexivity.
Qed.

(** X6: a valid frame with any other code never reaches a sink: the
    iteration makes no call that the oracle answers, prints the value only
    with [print_unknown] set and [daemonize] clear, and always stores the
    raw value in the entry of that code, where it is read back. *)
Theorem unknown_code_shadowed g returns indeterminate
    (result : co2mon_data_t) (s : state) :
  well_formed result ->
  code_of result ≠ CODE_TAMB -> code_of result ≠ CODE_CNTR -> cache_wf s ->
  let out := loop_body g returns indeterminate result s in
  out =
    (Body_end,
     State (<[Z.to_nat (code_of result) := raw_of result]> (co2mon_data s)) (calls s),
     if print_unknown g && negb (daemonize g)
     then [Ev_printf ("0x" +:+ fmt_02hhx (code_of result) +:+ TAB
                      +:+ fmt_d (raw_of result) +:+ LF)]
     else []) ∧
  co2mon_data (state_of out) !!! Z.to_nat (code_of result) = raw_of result ∧
  (daemonize g = true -> events_of out = []).
Proof.
  intros Hwf Ht Hc Hlen out. subst out. rewrite loop_body_unknown by done.
  split; [done|]. cbn [state_of events_of fst snd co2mon_data]. split.
  - apply list_lookup_total_insert_eq. rewrite Hlen. apply code_index_lt.
  - intros ->. by rewrite andb_false_r.
Qed.

Lemma unknown_code_shadowed_witness :
  loop_body influx_sink all_zero all_zero frame_unknown initial_state
  = (Body_end, State (<[109%nat := 1610]> (co2mon_data initial_state)) 0, []).
Proof.
  apply (unknown_code_shadowed influx_sink all_zero all_zero frame_unknown initial_state).
  - by split.
  - by vm_compute.
  - by vm_compute.
  - reflexivity.
Defined.

(** ** What one iteration may change *)

Lemma loop_body_out_of_range g returns indeterminate result s :
  well_formed result -> code_of result = CODE_CNTR -> 3000 < raw_of result ->
  loop_body g returns indeterminate result s = (Body_end, s, []).
Proof.
  intros Hwf Hc Hbig. rewrite loop_body_well_formed by done. rewrite Hc.
  change (CODE_CNTR =? CODE_TAMB) with false. rewrite Z.eqb_refl. cbv iota.
  unfold case_CNTR. replace (3000 <? raw_of result) with true by lia. reflexivity.
Qed.

(** X7: whatever the frame, one iteration either leaves the array as it
    is or stores the frame's raw value in the entry of the frame's code;
    the entries of all other codes are untouched, and the array keeps its
    256 entries. *)
Theorem iteration_changes_own_entry_only g returns indeterminate
    (result : co2mon_data_t) (s : state) :
  let data' := co2mon_data (state_of (loop_body g returns indeterminate result s)) in
  (data' = co2mon_data s ∨
   data' = <[Z.to_nat (code_of result) := raw_of result]> (co2mon_data s)) ∧
  (∀ i, i ≠ Z.to_nat (code_of result) -> data' !!! i = co2mon_data s !!! i) ∧
  length data' = length (co2mon_data s).
Proof.
  intros data'.
  assert (Hshape : data' = co2mon_data s ∨
            data' = <[Z.to_nat (code_of result) := raw_of result]> (co2mon_data s)).
  { subst data'.
    destruct (decide (well_formed result)) as [Hwf|Hbad].
    - destruct (decide (code_of result = CODE_TAMB)) as [Ht|Ht].
      { rewrite loop_body_recognised_data by (done || by left).
        repeat case_match; auto. }
      destruct (decide (code_of result = CODE_CNTR)) as [Hc|Hc].
      + destruct (decide (raw_of result <= 3000)) as [Hle|Hgt].
        * rewrite loop_body_recognised_data by (done || by right).
          repeat case_match; auto.
        * rewrite loop_body_out_of_range by (done || lia). by left.
      + rewrite loop_body_unknown by done. by right.
    - assert (Hmal : malformed result).
      { unfold well_formed, malformed in *.
        destruct (decide (at_index result 4 = 13)); [|by left].
        destruct (decide (at_index result 3 = checksum_of result)); [|by right].
        exfalso. by apply Hbad. }
      destruct (loop_body_malformed g returns indeterminate result s Hmal) as [msg ->].
      by left. }
  split; [done|]. split.
  - intros i Hi. destruct Hshape as [-> | ->]; [done|].
    by apply list_lookup_total_insert_ne.
  - destruct Hshape as [-> | ->]; [done|]. apply length_insert.
Qed.


(** ** Two identical readings in a row *)

(** X8: when a TAMB or in-range CNTR reading was already in the array, or
    its sink write returned non-zero, the same frame read again produces
    only the echo and the heartbeat: the sink function is not called a
    second time and the array stays as it is. *)
Theorem repeated_reading_written_once g returns indeterminate
    (result : co2mon_data_t) (s : state) :
  well_formed result -> recognised (code_of result) (raw_of result) -> cache_wf s ->
  let r0 := code_of result in
  let w := raw_of result in
  let out := loop_body g returns indeterminate result s in
  co2mon_data s !!! Z.to_nat r0 = w
    ∨ value_of (sink_write g returns indeterminate r0 w s) ≠ 0 ->
  events_of (loop_body g returns indeterminate result (state_of out)) =
    echo g r0 w ++ events_of (heartbeat g returns (state_of out)) ∧
  co2mon_data (state_of (loop_body g returns indeterminate result (state_of out)))
    = co2mon_data (state_of out).
Proof.
  intros Hwf Hrec Hlen r0 w out Hdone.
  apply loop_body_unchanged; [done..|]. fold r0 w. subst out.
  rewrite loop_body_recognised_data by done. fold r0 w.
  destruct (Z.eqb_spec (co2mon_data s !!! Z.to_nat r0) w) as [Heq|Hne]; [done|].
  destruct Hdone as [|Hok]; [done|].
  destruct (Z.eqb_spec (value_of (sink_write g returns indeterminate r0 w s)) 0);
    [done|].
  apply list_lookup_total_insert_eq. rewrite Hlen. apply code_index_lt.
Qed.

Lemma repeated_reading_written_once_witness :
  let ok := λ n : nat, match n with 0%nat => 3 | 3%nat => 4 | _ => 0 end in
  let out := loop_body file_sink ok all_zero frame_cntr initial_state in
  events_of (loop_body file_sink ok all_zero frame_cntr (state_of out))
  = echo file_sink (code_of frame_cntr) (raw_of frame_cntr)
      ++ events_of (heartbeat file_sink ok (state_of out)).
Proof.
  intros ok out.
  apply (repeated_reading_written_once file_sink ok all_zero frame_cntr initial_state).
  - by split.
  - right. split; [reflexivity | by vm_compute].
  - reflexivity.
  - right. by vm_compute.
Defined.

(** ** Events a run never emits *)

Section Silent.

Variable g : globals.
Variables returns indeterminate : nat -> Z.

(** A class of events [p] that the configuration rules out. *)
Variable p : event -> bool.
Hypothesis p_stderr : ∀ m, p (Ev_stderr m) = false.
Hypothesis p_time : p Ev_time = false.
Hypothesis p_read_data : p Ev_read_data = false.
Hypothesis p_magic : p Ev_send_magic_table = false.
Hypothesis p_printf : daemonize g = true ∨ ∀ m, p (Ev_printf m) = false.
Hypothesis p_file : is_Some (influx_db g) ∨ ∀ e, is_file_event e = true -> p e = false.
Hypothesis p_post : influx_db g = None ∨ ∀ a, p (Ev_post_http a) = false.

Lemma silent_write_data fd value :
  (∀ e, is_file_event e = true -> p e = false) ->
  emits_none p (write_data returns fd value).
Proof.
  intros Hp s. rewrite write_data_run.
  repeat match goal with |- context [if ?b then _ else _] => destruct b end;
    cbn [events_of snd keep_events]; rewrite ?Hp by done; done.
Qed.

Lemma silent_write_value name value :
  influx_db g = None -> emits_none p (write_value g returns name value).
Proof.
  intros Hdb s. pose proof p_file as Hcfg; destruct Hcfg as [[db Hsome]|Hp]; [congruence|].
  destruct (datadir g) as [dir|] eqn:Hdir.
  - rewrite (write_value_run _ _ _ _ _ dir Hdir).
    destruct (_ =? -1); cbn [events_of snd keep_events].
    + by rewrite !Hp.
    + rewrite Hp, keep_events_app, silent_write_data by done.
      cbn. by rewrite Hp.
  - by rewrite write_value_no_datadir.
Qed.

Lemma silent_heartbeat : emits_none p (heartbeat g returns).
Proof.
  intros s. unfold heartbeat. case_eq (influx_db g); [done|]. intros Hdb.
  rewrite write_heartbeat_events. cbn [keep_events]. rewrite p_time.
  by apply silent_write_value.
Qed.

Lemma silent_sink_write r0 w : emits_none p (sink_write g returns indeterminate r0 w).
Proof.
  intros s. unfold sink_write. case_eq (influx_db g); [intros db Hdb | intros Hdb].
  - pose proof p_post as Hcfg; destruct Hcfg as [|Hp]; [congruence|].
    destruct (r0 =? CODE_TAMB);
      rewrite ?write_temperature_influx_run, ?write_co2_influx_run;
      cbn [events_of snd keep_events]; by rewrite p_time, Hp.
  - by apply silent_write_value.
Qed.

Lemma silent_echo r0 w : keep_events p (echo g r0 w) = [].
Proof.
  unfold echo. case_eq (daemonize g); [done|]. intros Hd.
  pose proof p_printf as Hcfg; destruct Hcfg as [|Hp]; [congruence|]. cbn. by rewrite Hp.
Qed.

Lemma silent_loop_body result : emits_none p (loop_body g returns indeterminate result).
Proof.
  intros s. destruct (decide (well_formed result)) as [Hwf|Hbad].
  - destruct (decide (recognised (code_of result) (raw_of result))) as [Hrec|Hno].
    + rewrite loop_body_recognised by done.
      destruct (_ =? _); cbn [events_of snd];
        rewrite !keep_events_app, ?silent_echo, ?silent_heartbeat, ?silent_sink_write;
        done.
    + destruct (decide (code_of result = CODE_TAMB)) as [Ht|Ht];
        [exfalso; apply Hno; by left|].
      destruct (decide (code_of result = CODE_CNTR)) as [Hc|Hc].
      * rewrite loop_body_out_of_range; [done..|].
        destruct (decide (raw_of result <= 3000)); [|lia].
        exfalso. apply Hno. by right.
      * rewrite loop_body_unknown by done. cbn [events_of snd].
        destruct (print_unknown g); [|done]. case_eq (daemonize g); [done|]. intros Hd.
        pose proof p_printf as Hcfg; destruct Hcfg as [|Hp]; [congruence|]. cbn. by rewrite Hp.
  - assert (Hmal : malformed result).
    { unfold well_formed, malformed in *.
      destruct (decide (at_index result 4 = 13)); [|by left].
      destruct (decide (at_index result 3 = checksum_of result)); [|by right].
      exfalso. by apply Hbad. }
    destruct (loop_body_malformed g returns indeterminate result s Hmal) as [msg ->].
    cbn. by rewrite p_stderr.
Qed.

Lemma silent_read_loop reads : emits_none p (read_loop g returns indeterminate reads).
Proof.
  induction reads as [|[r result] rest IH]; intros s; [done|].
  destruct (decide (r <= 0)) as [Hr|Hr].
  - cbn [read_loop]. replace (r <=? 0) with true by lia. run. cbn.
    by rewrite p_read_data, p_stderr.
  - rewrite read_loop_cons by lia. cbn [events_of snd keep_events].
    by rewrite p_read_data, keep_events_app, silent_loop_body, IH.
Qed.

Lemma silent_device_loop dev : emits_none p (device_loop g returns indeterminate dev).
Proof.
  intros s. unfold device_loop.
  destruct (magic_table_ok dev); cbn [negb]; run; cbn [app keep_events];
    rewrite p_magic.
  - apply silent_read_loop.
  - by rewrite p_stderr.
Qed.

Hypothesis p_open_device : ∀ path, p (Ev_open_device path) = false.
Hypothesis p_close_device : p Ev_close_device = false.
Hypothesis p_sleep : ∀ n, p (Ev_sleep n) = false.

Lemma silent_main_loop_from flag opens :
  emits_none p (main_loop_from g returns indeterminate flag opens).
Proof.
  revert flag. induction opens as [|[dev|] rest IH]; intros flag s; [done| |].
  - cbn [main_loop_from]. unfold open_device. rewrite run_bind.
    cbn [emit events_of value_of state_of fst snd app keep_events].
    rewrite p_open_device, run_bind. cbn [events_of snd].
    rewrite keep_events_app, silent_device_loop.
    destruct (value_of (device_loop g returns indeterminate dev s)); run;
      cbn [keep_events app]; rewrite ?p_close_device, ?IH; done.
  - rewrite main_loop_from_failed. cbn [events_of snd keep_events].
    rewrite p_open_device, keep_events_app. cbn [keep_events].
    rewrite p_sleep, IH. by destruct flag; cbn; rewrite ?p_stderr.
Qed.

End Silent.


(** X9: a daemonized process never writes to standard output: no run of
    the supervisor, over any script of opens, reads and call results,
    contains a printf. *)
Theorem daemon_never_prints g returns indeterminate
    (opens : list (option device)) (s : state) :
  daemonize g = true ->
  keep_events is_printf (events_of (main_loop g returns indeterminate opens s)) = [].
Proof.
  intros Hd. unfold main_loop.
  apply silent_main_loop_from; try done; auto.
  right. by intros [].
Qed.

Lemma daemon_never_prints_witness :
  keep_events is_printf
    (events_of (main_loop influx_sink all_zero (always 1)
                  [None; Some (Device true [(8, frame_tamb); (8, frame_unknown); (0, [])])]
                  initial_state)) = [].
Proof.
  apply (daemon_never_prints influx_sink all_zero (always 1)
           [None; Some (Device true [(8, frame_tamb); (8, frame_unknown); (0, [])])]
           initial_state).
  reflexivity.
Defined.

(** X10: the two sinks exclude each other over a whole run: with an
    InfluxDB database configured no file is opened, locked, truncated,
    written or closed and perror is never called, even when a data
    directory is configured too; without a database [post_http] is never
    called. *)
Theorem sinks_exclude_each_other g returns indeterminate
    (opens : list (option device)) (s : state) :
  let evs := events_of (main_loop g returns indeterminate opens s) in
  (is_Some (influx_db g) -> keep_events is_file_event evs = []) ∧
  (influx_db g = None -> keep_events is_post_http evs = []).
Proof.
  intros evs. subst evs. unfold main_loop. split; intros Hdb.
  - apply silent_main_loop_from; try done; auto.
  - apply silent_main_loop_from; try done; auto.
    right. by intros [].
Qed.

Lemma sinks_exclude_each_other_witness :
  keep_events is_file_event
    (events_of (main_loop (Globals false true None (Some "/var/co2") (Some "co2"))
                  all_zero (always 1)
                  [Some (Device true [(8, frame_tamb); (8, frame_cntr); (0, [])])]
                  initial_state)) = [] ∧
  keep_events is_post_http
    (events_of (main_loop file_sink all_zero (always 1)
                  [Some (Device true [(8, frame_tamb); (8, frame_cntr); (0, [])])]
                  initial_state)) = [].
Proof.
  split.
  - apply (sinks_exclude_each_other (Globals false true None (Some "/var/co2") (Some "co2"))
             all_zero (always 1)
             [Some (Device true [(8, frame_tamb); (8, frame_cntr); (0, [])])]
             initial_state). by eexists.
  - apply (sinks_exclude_each_other file_sink all_zero (always 1)
             [Some (Device true [(8, frame_tamb); (8, frame_cntr); (0, [])])]
             initial_state). reflexivity.
Defined.

(** ** Device handles *)

Lemma silent_session_device_calls g returns indeterminate dev :
  emits_none is_device_call (device_loop g returns indeterminate dev).
Proof.
  apply silent_device_loop; try done; right; try done. by intros [].
Qed.

(** X12: the supervisor holds at most one device: over a script whose
    sessions return, the opens and closes it makes are one open per
    attempt, each successful open followed by its close before the next
    attempt; so there are as many closes as successful opens. *)
Theorem devices_opened_are_closed g returns indeterminate
    (opens : list (option device)) (s : state) :
  all_sessions_end opens ->
  let evs := events_of (main_loop g returns indeterminate opens s) in
  keep_events is_device_call evs = device_calls (devicefile g) opens ∧
  count_events is_open_device evs = length opens ∧
  count_events is_close_device evs = successes opens.
Proof.
  intros Hends evs.
  assert (Hcalls : keep_events is_device_call evs = device_calls (devicefile g) opens).
  { subst evs. unfold main_loop. generalize false. revert s.
    induction Hends as [|[dev|] rest Hdev Hrest IH]; intros s flag; [done| |].
    - rewrite main_loop_from_opened by done. cbn [events_of snd keep_events].
      change (is_device_call (Ev_open_device (devicefile g))) with true. cbv iota.
      rewrite keep_events_app, silent_session_device_calls.
      cbn [app keep_events device_calls].
      change (is_device_call Ev_close_device) with true. cbv iota. by rewrite IH.
    - rewrite main_loop_from_failed. cbn [events_of snd keep_events].
      change (is_device_call (Ev_open_device (devicefile g))) with true. cbv iota.
      rewrite keep_events_app. cbn [device_calls]. f_equal.
      destruct flag; cbn; apply IH. }
  split; [done|].
  assert (Hsplit : ∀ q l,
            (∀ e, q e = true -> is_device_call e = true) ->
            count_events q l = count_events q (keep_events is_device_call l)).
  { intros q l Hq. induction l as [|e l IHl]; [done|]. cbn.
    destruct (is_device_call e) eqn:He; cbn; rewrite IHl; [done|].
    destruct (q e) eqn:Hqe; [|done]. apply Hq in Hqe. congruence. }
  split.
  - rewrite (Hsplit is_open_device) by (by intros []). rewrite Hcalls.
    clear. induction opens as [|[dev|] rest IH]; cbn; [done|by rewrite IH..].
  - rewrite (Hsplit is_close_device) by (by intros []). rewrite Hcalls.
    clear. induction opens as [|[dev|] rest IH]; cbn; [done|by rewrite IH..].
Qed.

Lemma devices_opened_are_closed_witness :
  keep_events is_device_call
    (events_of (main_loop file_sink all_zero all_zero
                  [None; Some (Device true [(8, frame_cntr); (0, [])]); None;
                   Some (Device false [])]
                  initial_state))
  = [Ev_open_device None; Ev_open_device None; Ev_close_device;
     Ev_open_device None; Ev_open_device None; Ev_close_device].
Proof.
  apply (devices_opened_are_closed file_sink all_zero all_zero
           [None; Some (Device true [(8, frame_cntr); (0, [])]); None;
            Some (Device false [])]
           initial_state).
  unfold all_sessions_end. repeat apply Forall_cons_2; try exact I; [| |apply Forall_nil_2].
  - right. right. left. cbn. lia.
  - by left.
Defined.


(** ** Time stamps *)

(** X13: for a clock between 0 and 9223372036 seconds the time stamp
    posted to InfluxDB is that time in nanoseconds: the multiplication by
    1000000000 stays within [long long]. *)
Theorem influx_timestamp_in_nanoseconds returns indeterminate (value : string) (s : state) :
  0 <= returns (calls s) <= 9223372036 ->
  events_of (write_temperature_influx returns indeterminate value s) =
    [Ev_time;
     Ev_post_http [INFLUX_MEAS "temp"; INFLUX_F_FLT "value" value 4;
                   INFLUX_TS (returns (calls s) * 1000000000); INFLUX_END]] ∧
  events_of (write_co2_influx returns indeterminate value s) =
    [Ev_time;
     Ev_post_http [INFLUX_MEAS "co2"; INFLUX_F_INT "value" value;
                   INFLUX_TS (returns (calls s) * 1000000000); INFLUX_END]].
Proof.
  intros Ht.
  assert (Hts : to_llong (to_llong (returns (calls s)) * 1000000000)
                = returns (calls s) * 1000000000).
  { unfold to_llong.
    rewrite (Z.mod_small (returns (calls s) + 2 ^ 63)) by lia.
    replace (returns (calls s) + 2 ^ 63 - 2 ^ 63) with (returns (calls s)) by lia.
    rewrite Z.mod_small by lia. lia. }
  rewrite write_temperature_influx_run, write_co2_influx_run.
  cbn [events_of snd]. by rewrite Hts.
Qed.

Lemma influx_timestamp_in_nanoseconds_witness :
  events_of (write_co2_influx (always 1700000000) all_zero "412" initial_state) =
    [Ev_time;
     Ev_post_http [INFLUX_MEAS "co2"; INFLUX_F_INT "value" "412";
                   INFLUX_TS 1700000000000000000; INFLUX_END]].
Proof.
  apply (influx_timestamp_in_nanoseconds (always 1700000000) all_zero "412" initial_state).
  unfold always. lia.
Defined.

(** ** The text buffer *)

Lemma decimal_check_all :
  all_from (λ w, (String.length (fmt_d w) <=? 5)%nat) (Z.to_nat 65536) 0 = true.
Proof. vm_compute. reflexivity. Qed.

(** X14: [buf] is never too small: for every 16-bit raw value the
    temperature text and the decimal text are stored whole, the decimal
    text having at most five characters. *)
Theorem reading_text_fits_buffer (w : Z) :
  0 <= w < 65536 ->
  rendered CODE_TAMB w = fmt_4f (decode_temperature w) ∧
  snprintf VALUE_MAX (fmt_d w) = fmt_d w ∧
  (String.length (fmt_d w) <= 5)%nat.
Proof.
  intros Hw.
  assert (Hd : (String.length (fmt_d w) <= 5)%nat).
  { apply Nat.leb_le.
    apply (all_from_spec (λ w, (String.length (fmt_d w) <=? 5)%nat) _ _ decimal_check_all).
    lia. }
  split; [|split; [|done]].
  - pose proof (temperature_check_range w Hw) as Hck.
    unfold rendered, temperature_check, fmt_4f in *. rewrite Z.eqb_refl.
    destruct (Prim2SF (decode_temperature w)) as [| | |sgn m e]; try discriminate.
    apply andb_true_iff in Hck as [Hck Hlen]. apply andb_true_iff in Hck as [Hs Hm].
    apply Bool.eqb_prop in Hs. apply Z.eqb_eq in Hm. apply Nat.leb_le in Hlen.
    unfold snprintf. apply substring_all.
    unfold fixed4. rewrite Hm, Hs. unfold four_decimals, VALUE_MAX in *. lia.
  - unfold snprintf. apply substring_all. unfold VALUE_MAX. lia.
Qed.

Lemma reading_text_fits_buffer_witness :
  snprintf VALUE_MAX (fmt_d 65535) = fmt_d 65535.
Proof. apply (reading_text_fits_buffer 65535). lia. Defined.

(** ** The file sink, end to end *)

Lemma rendered_length r0 w : (String.length (rendered r0 w) <= 19)%nat.
Proof. unfold rendered, snprintf, VALUE_MAX. rewrite substring_length. lia. Qed.

(** X15: with the file sink, a changed TAMB or in-range CNTR reading
    whose five file calls succeed is written as one line: the iteration
    opens the metric's file, locks it, truncates it, writes the text
    followed by a line feed, unlocks, closes, then writes the heartbeat;
    and the array entry becomes the raw value. *)
Theorem file_sink_writes_one_line g returns indeterminate
    (result : co2mon_data_t) (s : state) (dir : string) :
  influx_db g = None -> datadir g = Some dir ->
  well_formed result -> recognised (code_of result) (raw_of result) -> cache_wf s ->
  let r0 := code_of result in
  let w := raw_of result in
  let n := calls s in
  let fd := returns n in
  let line := rendered r0 w +:+ LF in
  co2mon_data s !!! Z.to_nat r0 ≠ w ->
  fd ≠ -1 -> returns (S n) = 0 -> returns (S (S n)) = 0 ->
  returns (S (S (S n))) = Z.of_nat (String.length line) ->
  returns (S (S (S (S n)))) = 0 ->
  let out := loop_body g returns indeterminate result s in
  events_of out =
    echo g r0 w
      ++ [Ev_open (sink_file dir (metric_name r0)); Ev_fcntl fd F_WRLCK; Ev_ftruncate fd;
          Ev_write fd line; Ev_fcntl fd F_UNLCK; Ev_close fd]
      ++ events_of (write_heartbeat g returns
                      (State (<[Z.to_nat r0 := w]> (co2mon_data s)) (5 + n))) ∧
  co2mon_data (state_of out) !!! Z.to_nat r0 = w.
Proof.
  intros Hdb Hdir Hwf Hrec Hlen r0 w n fd line Hne Hfd H1 H2 H3 H4 out.
  assert (Hline : snprintf (VALUE_MAX + 1) (rendered r0 w +:+ LF) = line).
  { apply snprintf_line, rendered_length. }
  assert (Hsw : sink_write g returns indeterminate r0 w s =
                (1, State (co2mon_data s) (5 + n),
                 [Ev_open (sink_file dir (metric_name r0)); Ev_fcntl fd F_WRLCK;
                  Ev_ftruncate fd; Ev_write fd line; Ev_fcntl fd F_UNLCK; Ev_close fd])).
  { unfold sink_write. rewrite Hdb, (write_value_run _ _ _ _ _ dir Hdir).
    fold n fd. destruct (Z.eqb_spec fd (-1)) as [|_]; [done|].
    rewrite write_data_run. cbn [calls co2mon_data]. rewrite Hline.
    fold n. rewrite H1, H2, H3, H4, !Z.eqb_refl. reflexivity. }
  destruct (loop_body_changed g returns indeterminate result s Hwf Hrec Hne)
    as [Hev Hdata].
  fold r0 w out in Hev, Hdata. rewrite Hsw in Hev, Hdata.
  cbn [value_of state_of events_of fst snd] in Hev, Hdata.
  split.
  - rewrite Hev. unfold heartbeat, committed. rewrite Hdb. reflexivity.
  - rewrite Hdata. cbn. apply list_lookup_total_insert_eq. rewrite Hlen.
    apply code_index_lt.
Qed.

Lemma file_sink_writes_one_line_witness :
  let ok := λ n : nat, match n with 0%nat => 3 | 3%nat => 4 | _ => 0 end in
  Ev_write 3 ("412" +:+ LF)
    ∈ events_of (loop_body file_sink ok all_zero frame_cntr initial_state).
Proof.
  intros ok.
  destruct (file_sink_writes_one_line file_sink ok all_zero frame_cntr initial_state
              "/var/co2") as [Hev _];
    [reflexivity | reflexivity | by split
    | right; split; [reflexivity | by vm_compute]
    | reflexivity | by vm_compute | by vm_compute | reflexivity..|].
  rewrite Hev. apply elem_of_app. right. apply elem_of_app. left. in_list.
Defined.

(** ** Reads after a failed read *)

Lemma read_loop_app g returns indeterminate a b s :
  Forall (λ rf : Z * co2mon_data_t, 0 < rf.1) a ->
  read_loop g returns indeterminate (a ++ b) s =
  let ra := read_loop g returns indeterminate a s in
  let rb := read_loop g returns indeterminate b (state_of ra) in
  (value_of rb, state_of rb, events_of ra ++ events_of rb).
Proof.
  intros Ha. revert s. induction Ha as [|[r result] a Hr Ha IH]; intros s.
  - cbn. by destruct (read_loop g returns indeterminate b s) as [[? ?] ?].
  - cbn [app]. cbn [fst] in Hr. rewrite !read_loop_cons by done.
    cbn [value_of state_of events_of fst snd]. rewrite IH.
    cbn [value_of state_of events_of fst snd app]. by rewrite app_assoc.
Qed.

(** X16: frames are handled in the order of arrival and nothing is read
    after the first read that reports a non-positive status: the session
    on [a ++ (r, x) :: b], with the reads of [a] positive and [r <= 0],
    handles the frames of [a] one after the other, makes
    [length a + 1] reads, logs the error and ends, whatever [b] is. *)
Theorem nothing_read_after_failed_read g returns indeterminate
    (a b : list (Z * co2mon_data_t)) (r : Z) (x : co2mon_data_t) (s : state) :
  Forall (λ rf : Z * co2mon_data_t, 0 < rf.1) a -> r <= 0 ->
  let ra := read_loop g returns indeterminate a s in
  read_loop g returns indeterminate (a ++ (r, x) :: b) s =
    (Closed, state_of ra,
     events_of ra
       ++ [Ev_read_data; Ev_stderr ("Error while reading data from device" +:+ LF)]) ∧
  count_events is_read_data
    (events_of (read_loop g returns indeterminate (a ++ (r, x) :: b) s))
  = S (length a).
Proof.
  intros Ha Hr ra.
  assert (Hrun : read_loop g returns indeterminate (a ++ (r, x) :: b) s =
            (Closed, state_of ra,
             events_of ra
               ++ [Ev_read_data;
                   Ev_stderr ("Error while reading data from device" +:+ LF)])).
  { rewrite read_loop_app by done. fold ra. cbn [read_loop].
    replace (r <=? 0) with true by lia. run. reflexivity. }
  split; [done|]. rewrite Hrun. cbn [events_of snd].
  rewrite count_keep_events, keep_events_app, length_app. cbn.
  assert (Hcount : ∀ s0, length (keep_events is_read_data
                     (events_of (read_loop g returns indeterminate a s0))) = length a).
  { clear -Ha. induction Ha as [|[r' result] a Hr' Ha IH]; intros s0; [done|].
    cbn [fst] in Hr'. rewrite read_loop_cons by done.
    cbn [events_of snd keep_events is_read_data length].
    rewrite keep_events_app, length_app, IH.
    rewrite (silent_loop_body g returns indeterminate is_read_data); try done; auto.
    right. by intros []. }
  subst ra. rewrite Hcount. lia.
Qed.

Lemma nothing_read_after_failed_read_witness :
  count_events is_read_data
    (events_of (read_loop file_sink all_zero all_zero
                  ([(8, frame_tamb); (8, frame_bad_checksum)]
                     ++ (0, []) :: [(8, frame_cntr); (8, frame_cntr)])
                  initial_state)) = 3%nat.
Proof.
  apply (nothing_read_after_failed_read file_sink all_zero all_zero
           [(8, frame_tamb); (8, frame_bad_checksum)]
           [(8, frame_cntr); (8, frame_cntr)] 0 [] initial_state).
  - repeat constructor; cbn; lia.
  - lia.
Defined.


Lemma write_data_lock_discipline_witness :
  Ev_write 3 ("412" +:+ LF)
    ∈ events_of (write_data (always 0) 3 "412" initial_state) ∧
  Ev_fcntl 3 F_UNLCK ∉ events_of (write_data (always 0) 3 "412" initial_state).
Proof.
  destruct (write_data_lock_discipline (always 0) 3 "412" initial_state)
    as (_ & Hwrite & _ & Hunlock).
  split.
  - apply Hwrite. by split.
  - intros Hin. apply Hunlock in Hin as (_ & _ & Hlen). by vm_compute in Hlen.
Defined.

Lemma iteration_changes_own_entry_only_witness :
  let ok := λ n : nat, match n with 0%nat => 3 | 3%nat => 4 | _ => 0 end in
  co2mon_data (state_of (loop_body file_sink ok all_zero frame_cntr initial_state))
    !!! 0x42%nat = 0.
Proof.
  intros ok.
  destruct (iteration_changes_own_entry_only file_sink ok all_zero frame_cntr
              initial_state) as (_ & Hother & _).
  rewrite Hother; [reflexivity | by vm_compute].
Defined.



(** ** The option loop *)

Lemma given_cons c r rs :
  bool_decide (given c (r :: rs)) = bool_decide (opt r = c) || bool_decide (given c rs).
Proof.
  unfold given. apply eq_true_iff_eq.
  rewrite orb_true_iff, !bool_decide_eq_true, Exists_cons. done.
Qed.

Lemma option_case_spec o r : (option_case o r).1 = parsed_from o [r].
Proof.
  unfold parsed_from. rewrite !given_cons. cbn [last_arg option_errors].
  destruct o. unfold option_case.
  destruct r as [[[] [] [] [] [] [] [] []] arg oo]; cbn;
    rewrite ?orb_false_r, ?orb_true_r, ?Z.add_0_r; reflexivity.
Qed.

Lemma last_arg_cons (c : ascii) r rest (x : option string) :
  from_option Some (from_option Some x (last_arg c [r])) (last_arg c rest)
  = from_option Some x (last_arg c (r :: rest)).
Proof. cbn [last_arg]. destruct (last_arg c rest); [done|]. by case_decide. Qed.

Lemma parsed_from_cons o r rest :
  parsed_from (parsed_from o [r]) rest = parsed_from o (r :: rest).
Proof.
  unfold parsed_from at 1 3.
  cbn [o_daemonize o_show_help o_print_unknown o_reldatadir o_devicefile o_logfile
       o_pidfile o_influx_host o_influx_port o_influx_db o_influx_usr o_influx_pwd
       o_opterr parsed_from].
  rewrite !last_arg_cons, !(given_cons _ r rest), !(given_cons _ r []).
  assert (Hnil : ∀ c, bool_decide (given c []) = false).
  { intros c. apply bool_decide_eq_false. intros H. by apply Exists_nil in H. }
  rewrite !Hnil, !orb_false_r, <- !orb_assoc.
  cbn [option_errors]. rewrite Z.add_0_r, <- Z.add_assoc. reflexivity.
Qed.

Lemma option_loop_from o rs : (option_loop o rs).1 = parsed_from o rs.
Proof.
  revert o. induction rs as [|r rest IH]; intros o.
  - unfold parsed_from. cbn [option_loop fst last_arg option_errors from_option].
    rewrite !bool_decide_eq_false_2 by (intros H; by apply Exists_nil in H).
    rewrite !orb_false_r, Z.add_0_r. by destruct o.
  - cbn [option_loop]. pose proof (option_case_spec o r) as Hcase.
    destruct (option_case o r) as [o1 ev1]. cbn [fst] in Hcase.
    specialize (IH o1). destruct (option_loop o1 rest) as [o2 ev2]. cbn [fst] in *.
    by rewrite IH, Hcase, parsed_from_cons.
Qed.

Lemma option_loop_stderr o rs :
  Forall (λ e, is_st_stderr e = true) (option_loop o rs).2.
Proof.
  revert o. induction rs as [|r rest IH]; intros o; [by cbn|].
  cbn [option_loop].
  assert (Hcase : Forall (λ e, is_st_stderr e = true) (option_case o r).2).
  { unfold option_case. destruct r as [[[] [] [] [] [] [] [] []] arg oo]; cbn;
      repeat constructor. }
  destruct (option_case o r) as [o1 ev1]. specialize (IH o1).
  destruct (option_loop o1 rest) as [o2 ev2]. cbn [snd] in *.
  by apply Forall_app.
Qed.

Lemma option_loop_parsed (rs : list getopt_result) :
  (option_loop no_options rs).1 = parsed rs ∧
  Forall (λ e, is_st_stderr e = true) (option_loop no_options rs).2.
Proof.
  split; [|apply option_loop_stderr].
  rewrite option_loop_from. unfold parsed_from, parsed, no_options.
  cbn [o_daemonize o_show_help o_print_unknown o_reldatadir o_devicefile o_logfile
       o_pidfile o_influx_host o_influx_port o_influx_db o_influx_usr o_influx_pwd
       o_opterr].
  rewrite !orb_false_l, Z.add_0_l.
  assert (Hopt : ∀ x : option string, from_option Some None x = x) by (by intros []).
  by rewrite !Hopt.
Qed.

(** X17: the option loop leaves each flag set exactly when [getopt]
    returned its letter, each string option at the argument of the last
    occurrence of its letter (unset when there is none), and the error
    count at the number of [':'] and ['?'] answers; all it prints goes to
    the diagnostic stream. *)
Theorem option_loop_last_occurrence_wins (rs : list getopt_result) :
  (option_loop no_options rs).1 = parsed rs ∧
  Forall (λ e, is_st_stderr e = true) (option_loop no_options rs).2.
Proof. apply option_loop_parsed. Qed.


(** ** The ends of main *)

Lemma main_start_end returns indeterminate st opens g influx pidfd logfd :
  match (main_start returns indeterminate st opens g influx pidfd logfd).1 with
  | Exited status => status = 1
  | Returned status => status = init_result st ∧ status < 0
  | Running g' influx' _ => g' = g ∧ influx' = influx
  end.
Proof.
  unfold main_start. repeat (case_match; simplify_eq/=); try done; lia.
Qed.

Lemma main_files_end atoi returns indeterminate st opens o :
  match (main_files atoi returns indeterminate st opens o).1 with
  | Exited status => status = 1
  | Returned status => status = init_result st ∧ status < 0
  | Running g influx _ =>
      g = Globals (o_daemonize o) (o_print_unknown o) (o_devicefile o)
            (if o_reldatadir o is Some _ then realpath_result st else None)
            (o_influx_db o) ∧
      influx = configure_influx atoi o ∧
      (is_Some (o_reldatadir o) -> is_Some (realpath_result st))
  end.
Proof.
  unfold main_files.
  destruct (o_reldatadir o) as [rel|]; [destruct (realpath_result st) as [dir|]|];
    [|done|].
  all: destruct (o_pidfile o) as [pidfile|]; [destruct (pidfile_fd st =? -1)|];
    [done| |].
  all: destruct (o_logfile o) as [logfile|]; [destruct (logfile_fd st =? -1)|];
    [done| |].
  all: match goal with
       | |- context [main_start ?r ?i ?s ?op ?g ?f ?p ?l] =>
           pose proof (main_start_end r i s op g f p l) as Hend;
           destruct (main_start r i s op g f p l) as [[] ?]
       end; cbn [fst] in *; try done.
  all: destruct Hend as [-> ->]; split; [done|]; split; [done|]; eauto.
  all: by intros [? ?].
Qed.

Lemma main_run linux atoi returns indeterminate st opens :
  let o := parsed (getopts st) in
  let ev := (option_loop no_options (getopts st)).2 in
  main linux atoi returns indeterminate st opens =
  if o_show_help o || negb (o_opterr o =? 0) || negb (optind_is_argc st) then
    (Exited 1,
     ev ++ St_stderr usage_line :: (if o_show_help o then help_text linux else []))
  else if o_daemonize o && negb (bool_decide (is_Some (o_reldatadir o))
                                 || bool_decide (is_Some (o_influx_db o))) then
    (Exited 1,
     ev ++ [St_stderr ("co2mond: it is useless to use -d without -D or -B." +:+ LF)])
  else
    ((main_files atoi returns indeterminate st opens o).1,
     ev ++ (main_files atoi returns indeterminate st opens o).2).
Proof.
  intros o ev. subst o ev. unfold main.
  destruct (option_loop_parsed (getopts st)) as [Ho _].
  destruct (option_loop no_options (getopts st)) as [o ev]. cbn [fst snd] in *.
  subst o. repeat case_match; simplify_eq/=; done.
Qed.

Lemma main_ends linux atoi returns indeterminate st opens :
  let rs := getopts st in
  match (main linux atoi returns indeterminate st opens).1 with
  | Exited status => status = 1
  | Returned status => status = init_result st ∧ status < 0
  | Running g influx _ =>
      g = globals_of st ∧ influx = configure_influx atoi (parsed rs) ∧
      ¬ given "h" rs ∧ option_errors rs = 0 ∧ optind_is_argc st = true ∧
      (is_Some (last_arg "D" rs) -> is_Some (realpath_result st)) ∧
      (given "d" rs -> is_Some (last_arg "D" rs) ∨ is_Some (last_arg "B" rs))
  end.
Proof.
  intros rs. rewrite main_run. fold rs.
  destruct (o_show_help (parsed rs)) eqn:Hh; cbn [orb]; [done|].
  destruct (Z.eqb_spec (o_opterr (parsed rs)) 0) as [Herr|]; cbn [negb orb]; [|done].
  destruct (optind_is_argc st) eqn:Hind; cbn [negb]; [|done].
  destruct (o_daemonize (parsed rs) && _) eqn:Hd; [done|]. cbn [fst].
  pose proof (main_files_end atoi returns indeterminate st opens (parsed rs)) as Hend.
  destruct (main_files atoi returns indeterminate st opens (parsed rs)).1; try done.
  destruct Hend as (-> & -> & Hreal).
  cbn in Hh, Herr, Hd, Hreal. apply bool_decide_eq_false in Hh.
  repeat split; try done.
  intros Hgiven. rewrite bool_decide_eq_true_2 in Hd by done. cbn in Hd.
  apply negb_false_iff, orb_true_iff in Hd as [Hd|Hd];
    apply bool_decide_eq_true in Hd; auto.
Qed.

(** X18: [main_loop] never runs detached without a destination: when
    [main] reaches it with [daemonize] set, a data directory or an
    InfluxDB database is configured; and a data directory, when there is
    one, is the path that [realpath] returned. *)
Theorem daemon_always_has_a_sink linux atoi returns indeterminate
    (st : startup) (opens : list (option device)) g influx e :
  (main linux atoi returns indeterminate st opens).1 = Running g influx e ->
  g = globals_of st ∧
  (daemonize g = true -> is_Some (datadir g) ∨ is_Some (influx_db g)) ∧
  (is_Some (datadir g) ↔ is_Some (last_arg "D" (getopts st))) ∧
  (is_Some (datadir g) -> datadir g = realpath_result st).
Proof.
  intros Hrun.
  pose proof (main_ends linux atoi returns indeterminate st opens) as Hend.
  rewrite Hrun in Hend. destruct Hend as (-> & _ & _ & _ & _ & Hreal & Hsink).
  split; [done|]. unfold globals_of. cbn [daemonize datadir influx_db].
  destruct (last_arg "D" (getopts st)) as [rel|] eqn:HD.
  - destruct (Hreal ltac:(done)) as [dir Hdir]. rewrite Hdir.
    repeat split; eauto.
  - split; [|split; [split; by intros [? ?] | by intros [? ?]]].
    intros Hd. apply bool_decide_eq_true in Hd.
    destruct (Hsink Hd) as [[? ?]|?]; [done | by right].
Qed.

(** X19: every way out of [main] carries a non-zero status: [exit] is
    only ever called with 1, and the only [return] that is reached gives
    the negative result of [co2mon_init]. *)
Theorem main_never_reports_success linux atoi returns indeterminate
    (st : startup) (opens : list (option device)) :
  match (main linux atoi returns indeterminate st opens).1 with
  | Exited status => status = 1
  | Returned status => status = init_result st ∧ status < 0
  | Running _ _ _ => 0 <= init_result st
  end.
Proof.
  pose proof (main_ends linux atoi returns indeterminate st opens) as Hend.
  destruct (main linux atoi returns indeterminate st opens).1 eqn:Hmain; try done.
  clear Hend. rewrite main_run in Hmain.
  repeat (case_match; simplify_eq/=).
  unfold main_files, main_start in *.
  repeat (case_match; simplify_eq/=); lia.
Qed.

Lemma daemon_always_has_a_sink_witness :
  globals_of sample_startup
  = Globals true false None (Some "/srv/data") (Some "co2").
Proof.
  symmetry.
  apply (daemon_always_has_a_sink true (λ _, 9999)
           (λ n, match n with 2%nat => 4 | _ => 0 end) all_zero sample_startup [None]
           (Globals true false None (Some "/srv/data") (Some "co2"))
           (Influx (Some "influxdb") 9999 (Some "co2") None None) (Connecting true)).
  by vm_compute.
Defined.

(** X20: the InfluxDB client is filled in only when a database is
    given: then the host is the last [-H] argument or "influxdb", the port
    the last [-P] argument read by [atoi] or 8086, and user and password
    are set only when given; without [-B] the client stays zeroed,
    whatever [-H], [-P], [-U] and [-W] say. *)
Theorem influx_client_defaults linux atoi returns indeterminate
    (st : startup) (opens : list (option device)) g influx e :
  (main linux atoi returns indeterminate st opens).1 = Running g influx e ->
  let rs := getopts st in
  influx_db g = last_arg "B" rs ∧
  match last_arg "B" rs with
  | None => influx = influx_zero
  | Some database =>
      host influx = Some (default "influxdb" (last_arg "H" rs)) ∧
      port influx = from_option atoi 8086 (last_arg "P" rs) ∧
      db influx = Some database ∧
      usr influx = last_arg "U" rs ∧ pwd influx = last_arg "W" rs
  end.
Proof.
  intros Hrun rs.
  pose proof (main_ends linux atoi returns indeterminate st opens) as Hend.
  rewrite Hrun in Hend. destruct Hend as (-> & -> & _). fold rs.
  split; [done|]. unfold configure_influx, parsed.
  cbn [o_influx_db o_influx_host o_influx_port o_influx_usr o_influx_pwd].
  by destruct (last_arg "B" rs).
Qed.

Lemma influx_client_defaults_witness :
  let influx := Influx (Some "influxdb") 9999 (Some "co2") None None in
  host influx = Some (default "influxdb" (last_arg "H" (getopts sample_startup))) ∧
  port influx = from_option (λ _, 9999) 8086 (last_arg "P" (getopts sample_startup)).
Proof.
  intros influx.
  destruct (influx_client_defaults true (λ _, 9999)
              (λ n, match n with 2%nat => 4 | _ => 0 end) all_zero sample_startup
              [None] (Globals true false None (Some "/srv/data") (Some "co2"))
              influx (Connecting true) ltac:(by vm_compute))
    as [_ Hcfg].
  change (last_arg "B" (getopts sample_startup)) with (Some "co2"%string) in Hcfg.
  destruct Hcfg as (Hhost & Hport & _). by split.
Defined.

Lemma option_errors_nonneg rs : 0 <= option_errors rs.
Proof. induction rs as [|r rs IH]; cbn; [done|]. case_bool_decide; lia. Qed.

(** X21: a help request, a missing operand, an unknown option or a
    left-over argument ends [main] with [exit(1)] right after the option
    loop: it prints the usage line, and the help text exactly when [-h]
    was given, and calls nothing but [fprintf(stderr, ...)]. *)
Theorem usage_errors_exit_early linux atoi returns indeterminate
    (st : startup) (opens : list (option device)) :
  let rs := getopts st in
  given "h" rs ∨ 0 < option_errors rs ∨ optind_is_argc st = false ->
  main linux atoi returns indeterminate st opens =
    (Exited 1,
     (option_loop no_options rs).2
       ++ St_stderr usage_line
       :: (if bool_decide (given "h" rs) then help_text linux else [])) ∧
  Forall (λ e, is_st_stderr e = true)
    (main linux atoi returns indeterminate st opens).2.
Proof.
  intros rs Hbad. rewrite main_run. fold rs.
  assert (Hcond : o_show_help (parsed rs) || negb (o_opterr (parsed rs) =? 0)
                  || negb (optind_is_argc st) = true).
  { cbn. destruct Hbad as [Hh | [Herr | Hind]].
    - by rewrite bool_decide_eq_true_2.
    - destruct (Z.eqb_spec (option_errors rs) 0); [lia|]. by rewrite orb_true_r.
    - rewrite Hind. by rewrite orb_true_r. }
  rewrite Hcond. split; [done|]. cbn [snd].
  apply Forall_app. split; [apply option_loop_stderr|].
  constructor; [done|]. cbn [o_show_help parsed]. case_bool_decide; [|constructor].
  unfold help_text. cbn [map]. repeat constructor.
Qed.

Lemma usage_errors_exit_early_witness :
  main true (λ _, 0) all_zero all_zero sample_bad_startup [] =
    (Exited 1,
     [St_stderr ("Option -D requires an operand" +:+ LF); St_stderr usage_line]).
Proof.
  apply (usage_errors_exit_early true (λ _, 0) all_zero all_zero sample_bad_startup []).
  right. left. by vm_compute.
Defined.

(** X22: [-d] without [-D] and without [-B] is refused: with no help
    request, no option error and no left-over argument, [main] prints
    that it is useless to run detached without a destination and calls
    [exit(1)] before it resolves a path, opens a file, detaches or touches
    the device. *)
Theorem daemon_without_sink_refused linux atoi returns indeterminate
    (st : startup) (opens : list (option device)) :
  let rs := getopts st in
  given "d" rs -> last_arg "D" rs = None -> last_arg "B" rs = None ->
  ¬ given "h" rs -> option_errors rs = 0 -> optind_is_argc st = true ->
  main linux atoi returns indeterminate st opens =
    (Exited 1,
     (option_loop no_options rs).2
       ++ [St_stderr ("co2mond: it is useless to use -d without -D or -B." +:+ LF)]).
Proof.
  intros rs Hd HD HB Hh Herr Hind. rewrite main_run. fold rs. cbn.
  rewrite (bool_decide_eq_false_2 _ Hh), Herr, Hind, (bool_decide_eq_true_2 _ Hd).
  rewrite HD, HB. reflexivity.
Qed.

Lemma daemon_without_sink_refused_witness :
  main true (λ _, 0) all_zero all_zero sample_daemon_only [] =
    (Exited 1,
     [St_stderr ("co2mond: it is useless to use -d without -D or -B." +:+ LF)]).
Proof.
  apply (daemon_without_sink_refused true (λ _, 0) all_zero all_zero
           sample_daemon_only []); try reflexivity.
  - left. reflexivity.
  - by apply (bool_decide_eq_false_1 (given "h" (getopts sample_daemon_only))).
Defined.


(** ** The length of a decimal text *)

Lemma string_of_uint_length (d : Decimal.uint) :
  String.length (NilEmpty.string_of_uint d) = Decimal.nb_digits d.
Proof. induction d; cbn; congruence. Qed.

Lemma of_uint_acc_lower (l : Decimal.uint) (acc : positive) :
  Z.pos acc * 10 ^ Z.of_nat (Decimal.nb_digits l) <= Z.pos (Pos.of_uint_acc l acc).
Proof.
  revert acc. induction l as [|l IH|l IH|l IH|l IH|l IH|l IH|l IH|l IH|l IH|l IH];
    intros acc; cbn [Pos.of_uint_acc Decimal.nb_digits]; [cbn; lia|..].
  all: rewrite Nat2Z.inj_succ, Z.pow_succ_r by lia.
  all: etrans; [|apply IH].
  all: assert (0 < 10 ^ Z.of_nat (Decimal.nb_digits l)) by (apply Z.pow_pos_nonneg; lia).
  all: nia.
Qed.

(** A positive number is at least ten to the number of its digits less
    one. *)
Lemma to_uint_digits (p : positive) :
  10 ^ (Z.of_nat (Decimal.nb_digits (Pos.to_uint p)) - 1) <= Z.pos p.
Proof.
  pose proof (DecimalPos.Unsigned.of_to p) as Hof.
  pose proof (DecimalPos.Unsigned.to_of (Pos.to_uint p)) as Hnorm.
  rewrite Hof in Hnorm. cbn [N.to_uint] in Hnorm.
  pose proof (DecimalPos.Unsigned.to_uint_nonzero p) as Hnz.
  pose proof (DecimalPos.Unsigned.to_uint_nonnil p) as Hnn.
  destruct (Pos.to_uint p) as [|l|l|l|l|l|l|l|l|l|l] eqn:Hd; [done| |..].
  1:{ exfalso. rewrite DecimalFacts.unorm_D0 in Hnorm. unfold Decimal.unorm in Hnorm.
      destruct (Decimal.nzhead l) as [|u|u|u|u|u|u|u|u|u|u] eqn:Hh;
        try discriminate Hnorm.
      - by apply Hnz.
      - by apply (DecimalFacts.nzhead_nonzero l u). }
  all: cbn [Pos.of_uint] in Hof; injection Hof as <-.
  all: cbn [Decimal.nb_digits]; rewrite Nat2Z.inj_succ.
  all: replace (Z.succ (Z.of_nat (Decimal.nb_digits l)) - 1)
         with (Z.of_nat (Decimal.nb_digits l)) by lia.
  all: etrans; [|apply of_uint_acc_lower]; lia.
Qed.

Lemma fmt_d_length (t : Z) :
  0 <= t < 10 ^ 19 -> (String.length (fmt_d t) <= 19)%nat.
Proof.
  intros Ht. unfold fmt_d. destruct t as [|p|p]; [cbn; lia| |lia].
  cbn [Z.to_int NilZero.string_of_int]. unfold NilZero.string_of_uint.
  pose proof (to_uint_digits p) as Hdig.
  assert (Hlen : String.length (NilEmpty.string_of_uint (Pos.to_uint p))
                 = Decimal.nb_digits (Pos.to_uint p)) by apply string_of_uint_length.
  destruct (Pos.to_uint p) eqn:Hd; [cbn; lia|..]; rewrite Hlen.
  all: destruct (decide (Decimal.nb_digits (Pos.to_uint p) <= 19)%nat) as [Hle|Hgt];
    [by rewrite Hd in Hle|].
  all: exfalso; rewrite <- Hd in Hdig.
  all: assert (10 ^ 19 <= 10 ^ (Z.of_nat (Decimal.nb_digits (Pos.to_uint p)) - 1))
         by (apply Z.pow_le_mono_r; lia); lia.
Qed.

(** The text of a clock value that fits [long long]: [%lld] into the
    20-byte buffer, then ["%s\n"] into the 21-byte buffer. *)
Lemma heartbeat_text (t : Z) :
  0 <= t < 2 ^ 63 ->
  snprintf (VALUE_MAX + 1) (snprintf VALUE_MAX (fmt_d (to_llong t)) +:+ LF)
  = fmt_d t +:+ LF.
Proof.
  intros Ht.
  assert (Hll : to_llong t = t).
  { unfold to_llong. rewrite Z.mod_small by lia. lia. }
  assert (Hlen : (String.length (fmt_d t) <= 19)%nat) by (apply fmt_d_length; lia).
  rewrite Hll. unfold snprintf at 2.
  rewrite substring_all by (unfold VALUE_MAX; lia).
  by apply snprintf_line.
Qed.

(** ** What write_heartbeat writes *)

Lemma write_heartbeat_writes g returns s1 dir :
  datadir g = Some dir ->
  let t := returns (calls s1) in
  let fd := returns (S (calls s1)) in
  let hb := events_of (write_heartbeat g returns s1) in
  0 <= t < 2 ^ 63 ->
  (∀ fd' d, Ev_write fd' d ∈ hb -> fd' = fd ∧ d = fmt_d t +:+ LF) ∧
  (fd ≠ -1 -> returns (S (S (calls s1))) = 0 -> returns (S (S (S (calls s1)))) = 0 ->
   Ev_write fd (fmt_d t +:+ LF) ∈ hb).
Proof.
  intros Hdir t fd hb Ht. subst hb.
  rewrite write_heartbeat_events, (write_value_run _ _ _ _ _ dir Hdir).
  cbn [calls co2mon_data]. fold t fd.
  destruct (Z.eqb_spec fd (-1)) as [Hfd|Hfd]; cbn [events_of snd].
  { split; [|done]. intros fd' d. not_in_list. }
  rewrite write_data_run. cbn [calls co2mon_data]. rewrite (heartbeat_text t Ht).
  repeat match goal with |- context [if ?b then _ else _] => destruct b eqn:? end;
    cbn [events_of snd app]; (split; [intros fd' d Hin | intros _ H1 H2]).
  all: try (rewrite ?elem_of_cons, ?elem_of_nil in Hin;
            repeat (destruct Hin as [Hin|Hin]; [by simplify_eq|]); done).
  all: try in_list.
  all: exfalso; lia.
Qed.


(** ** The heartbeat file *)

Lemma no_sink_opens_nothing g returns indeterminate (result : co2mon_data_t) (s : state) :
  well_formed result -> recognised (code_of result) (raw_of result) ->
  influx_db g = None -> datadir g = None ->
  ∀ f, Ev_open f ∉ events_of (loop_body g returns indeterminate result s).
Proof.
  intros Hwf Hrec Hdb Hdir f. rewrite loop_body_recognised by done.
  unfold heartbeat, sink_write, echo. rewrite Hdb.
  destruct (_ !!! _ =? _), (daemonize g);
    rewrite ?write_heartbeat_events, ?write_value_no_datadir by done;
    cbn [events_of value_of state_of fst snd app];
    rewrite ?write_heartbeat_events, ?write_value_no_datadir by done;
    cbn [events_of snd app]; not_in_list.
Qed.

(** C5, amended: after a processed TAMB or in-range CNTR reading, whether
    or not the sink write was skipped, the file heartbeat is opened exactly
    when no InfluxDB database is configured and a data directory is, and
    it is written only then.  Without a database [write_heartbeat] runs
    last: with a data directory it opens the file heartbeat there and,
    once the open, the lock and the truncation have succeeded, writes the
    decimal text of the value that [time(0)] returned, followed by a line
    feed, and writes nothing else; with no data directory it only reads
    the clock.  With a database configured no file is opened at all. *)
Theorem heartbeat_needs_data_directory g returns indeterminate
    (result : co2mon_data_t) (s : state) :
  well_formed result -> recognised (code_of result) (raw_of result) ->
  let evs := events_of (loop_body g returns indeterminate result s) in
  ((∃ dir, datadir g = Some dir ∧ Ev_open (sink_file dir "heartbeat") ∈ evs) ↔
   influx_db g = None ∧ is_Some (datadir g)) ∧
  (is_Some (influx_db g) -> ∀ f, Ev_open f ∉ evs) ∧
  (influx_db g = None ->
     ∃ pre s1,
       evs = pre ++ events_of (write_heartbeat g returns s1) ∧
       (datadir g = None -> events_of (write_heartbeat g returns s1) = [Ev_time]) ∧
       (∀ dir, datadir g = Some dir ->
          ∃ rest, events_of (write_heartbeat g returns s1)
                  = Ev_time :: Ev_open (sink_file dir "heartbeat") :: rest)) ∧
  (heartbeat_written evs -> influx_db g = None ∧ is_Some (datadir g)) ∧
  (influx_db g = None -> is_Some (datadir g) ->
     ∃ pre s1,
       evs = pre ++ events_of (write_heartbeat g returns s1) ∧
       let t := returns (calls s1) in
       let fd := returns (S (calls s1)) in
       (0 <= t < 2 ^ 63 ->
        (∀ fd' d, Ev_write fd' d ∈ events_of (write_heartbeat g returns s1) ->
                  fd' = fd ∧ d = fmt_d t +:+ LF) ∧
        (fd ≠ -1 -> returns (S (S (calls s1))) = 0 ->
         returns (S (S (S (calls s1)))) = 0 ->
         Ev_write fd (fmt_d t +:+ LF) ∈ events_of (write_heartbeat g returns s1) ∧
         heartbeat_written evs))).
Proof.
  intros Hwf Hrec evs.
  destruct (heartbeat_events g returns indeterminate result s Hwf Hrec)
    as [Hinflux Hfile].
  fold evs in Hinflux, Hfile.
  assert (Hopened : (∃ dir, datadir g = Some dir ∧ Ev_open (sink_file dir "heartbeat") ∈ evs)
                    ↔ influx_db g = None ∧ is_Some (datadir g)).
  { split.
    - intros (dir & Hdir & Hin). destruct (influx_db g) as [db|] eqn:Hdb.
      + exfalso. by apply (Hinflux (mk_is_Some _ _ eq_refl) (sink_file dir "heartbeat")).
      + split; [done|]. by rewrite Hdir.
    - intros [Hdb [dir Hdir]]. exists dir. split; [done|].
      destruct (Hfile Hdb) as (pre & s1 & Hevs & _ & Hopen).
      destruct (Hopen dir Hdir) as [rest Hhb]. rewrite Hevs, Hhb.
      apply elem_of_app. right. apply list_elem_of_further, list_elem_of_here. }
  split; [done|]. split; [done|]. split; [done|]. split.
  - intros (dir & fd & t & Hopen & _).
    destruct (influx_db g) as [db|] eqn:Hdb.
    { exfalso. by apply (Hinflux (mk_is_Some _ _ eq_refl) (sink_file dir "heartbeat")). }
    split; [done|]. destruct (datadir g) as [dir'|] eqn:Hdir; [done|].
    exfalso. subst evs.
    by apply (no_sink_opens_nothing g returns indeterminate result s Hwf Hrec Hdb Hdir
                (sink_file dir "heartbeat")).
  - intros Hdb [dir Hdir].
    destruct (Hfile Hdb) as (pre & s1 & Hevs & _ & Hopen).
    exists pre, s1. split; [done|]. intros t fd Ht.
    destruct (write_heartbeat_writes g returns s1 dir Hdir Ht) as [Honly Hwrite].
    fold t fd in Honly, Hwrite. split; [done|].
    intros Hfd Hlock Htrunc. pose proof (Hwrite Hfd Hlock Htrunc) as Hin.
    split; [done|]. exists dir, fd, t. rewrite Hevs.
    destruct (Hopen dir Hdir) as [rest Hhb].
    split; apply elem_of_app; right; [|done].
    rewrite Hhb. apply list_elem_of_further, list_elem_of_here.
Qed.

Lemma heartbeat_needs_data_directory_witness :
  heartbeat_written
    (events_of (loop_body file_sink all_zero all_zero frame_tamb initial_state)) ∧
  (∃ dir, datadir file_sink = Some dir ∧
          Ev_open (sink_file dir "heartbeat")
            ∈ events_of (loop_body file_sink all_zero all_zero frame_tamb initial_state)) ∧
  ∀ f, Ev_open f
         ∉ events_of (loop_body influx_sink all_zero all_zero frame_tamb initial_state).
Proof.
  split; [|split].
  - destruct (heartbeat_needs_data_directory file_sink all_zero all_zero
                frame_tamb initial_state) as (_ & _ & _ & _ & Hwrite);
      [by split | by left |].
    destruct (Hwrite eq_refl ltac:(by eexists)) as (pre & s1 & _ & Hline).
    unfold all_zero in Hline.
    destruct (Hline ltac:(lia)) as [_ Hdone].
    by destruct Hdone.
  - apply (heartbeat_needs_data_directory file_sink all_zero all_zero
             frame_tamb initial_state); [by split | by left |].
    split; [reflexivity | by eexists].
  - apply (heartbeat_needs_data_directory influx_sink all_zero all_zero
             frame_tamb initial_state); [by split | by left | by eexists].
Defined.


(** ** The InfluxDB branch of the commit *)

Lemma sink_write_influx g returns indeterminate r0 w s db :
  influx_db g = Some db ->
  value_of (sink_write g returns indeterminate r0 w s) = indeterminate (S (S (calls s))) ∧
  ∃ args, events_of (sink_write g returns indeterminate r0 w s)
          = [Ev_time; Ev_post_http args].
Proof.
  intros Hdb. unfold sink_write. rewrite Hdb.
  destruct (r0 =? CODE_TAMB);
    rewrite ?write_temperature_influx_run, ?write_co2_influx_run; eauto.
Qed.

(** C1 (the code departs from it on the InfluxDB path): with a database
    configured, a changed TAMB or in-range CNTR reading is posted, but
    whether its raw value is stored does not depend on what [post_http]
    returned: the array after the iteration is the same for every answer
    of the outside world.  The value tested is the indeterminate result of
    a function without [return]: when it is non-zero the reading is stored
    and the same frame is not posted again, whatever became of the post;
    when it is zero nothing is stored. *)
Theorem influx_commit_independent_of_post g returns indeterminate
    (result : co2mon_data_t) (s : state) :
  is_Some (influx_db g) ->
  well_formed result -> recognised (code_of result) (raw_of result) -> cache_wf s ->
  let r0 := code_of result in
  let w := raw_of result in
  co2mon_data s !!! Z.to_nat r0 ≠ w ->
  let out := loop_body g returns indeterminate result s in
  let v := indeterminate (S (S (calls s))) in
  (∃ args, events_of out = echo g r0 w ++ [Ev_time; Ev_post_http args]) ∧
  (∀ returns',
     co2mon_data (state_of (loop_body g returns' indeterminate result s))
     = co2mon_data (state_of out)) ∧
  (v ≠ 0 ->
     co2mon_data (state_of out) !!! Z.to_nat r0 = w ∧
     ∀ returns',
       events_of (loop_body g returns' indeterminate result (state_of out)) = echo g r0 w) ∧
  (v = 0 -> co2mon_data (state_of out) = co2mon_data s).
Proof.
  intros [db Hdb] Hwf Hrec Hlen r0 w Hne out v.
  assert (Hdata : ∀ returns',
            co2mon_data (state_of (loop_body g returns' indeterminate result s))
            = if v =? 0 then co2mon_data s else <[Z.to_nat r0 := w]> (co2mon_data s)).
  { intros returns'.
    destruct (loop_body_changed g returns' indeterminate result s Hwf Hrec Hne)
      as [_ Hd].
    destruct (sink_write_influx g returns' indeterminate r0 w s db Hdb) as [Hval _].
    cbv zeta in Hd. unfold r0, w, v in Hval |- *. by rewrite Hd, Hval. }
  split; [|split; [|split]].
  - destruct (loop_body_changed g returns indeterminate result s Hwf Hrec Hne)
      as [Hev _].
    destruct (sink_write_influx g returns indeterminate r0 w s db Hdb) as [_ [args Hsw]].
    cbv zeta in Hev. unfold out, r0, w in Hsw |- *. rewrite Hev, Hsw.
    unfold heartbeat. rewrite Hdb.
    exists args. cbn [events_of snd mret M_ret]. by rewrite app_nil_r.
  - intros returns'. subst out. by rewrite !Hdata.
  - intros Hv.
    assert (Hentry : co2mon_data (state_of out) !!! Z.to_nat r0 = w).
    { subst out. rewrite Hdata. destruct (Z.eqb_spec v 0); [done|].
      apply list_lookup_total_insert_eq. rewrite Hlen. apply code_index_lt. }
    split; [done|]. intros returns'.
    destruct (loop_body_unchanged g returns' indeterminate result (state_of out)
                Hwf Hrec Hentry) as [-> _].
    unfold heartbeat. rewrite Hdb. cbn [events_of snd mret M_ret]. by rewrite app_nil_r.
  - intros Hv. subst out. rewrite Hdata. by rewrite Hv.
Qed.

Lemma influx_commit_independent_of_post_witness :
  co2mon_data (state_of (loop_body influx_sink (always (-1)) (always 1)
                           frame_cntr initial_state)) !!! Z.to_nat (code_of frame_cntr)
    = raw_of frame_cntr ∧
  events_of (loop_body influx_sink (always (-1)) (always 1) frame_cntr
               (state_of (loop_body influx_sink (always (-1)) (always 1)
                            frame_cntr initial_state)))
    = echo influx_sink (code_of frame_cntr) (raw_of frame_cntr).
Proof.
  destruct (influx_commit_independent_of_post influx_sink (always (-1)) (always 1)
              frame_cntr initial_state) as (_ & _ & Hstored & _).
  - by eexists.
  - by split.
  - right. split; [reflexivity | by vm_compute].
  - reflexivity.
  - by vm_compute.
  - destruct (Hstored ltac:(by vm_compute)) as [Hentry Hagain].
    split; [exact Hentry | apply Hagain].
Defined.

(** ** The buffer of write_data *)

(** X3: once the lock and the truncation have succeeded, [write_data]
    hands exactly one buffer to [write], of at most 20 characters: a value
    of up to 19 characters whole and followed by a line feed, a longer
    value cut to its first 20 characters, without a line feed; and it
    returns 1 only if [write] reports the length of that buffer. *)
Theorem write_data_buffer returns fd (value : string) (s : state) :
  returns (calls s) = 0 -> returns (S (calls s)) = 0 ->
  ∃ data,
    Ev_write fd data ∈ events_of (write_data returns fd value s) ∧
    (∀ fd' d, Ev_write fd' d ∈ events_of (write_data returns fd value s) -> d = data) ∧
    (String.length data <= 20)%nat ∧
    ((String.length value <= 19)%nat -> data = value +:+ LF) ∧
    ((20 <= String.length value)%nat -> data = String.substring 0 20 value) ∧
    (value_of (write_data returns fd value s) = 1 ->
     returns (S (S (calls s))) = Z.of_nat (String.length data)).
Proof.
  intros Hlock Htrunc.
  exists (snprintf (VALUE_MAX + 1) (value +:+ LF)).
  rewrite write_data_run. rewrite Hlock, Htrunc. cbn [Z.eqb negb].
  assert (Htext :
    (String.length (snprintf (VALUE_MAX + 1) (value +:+ LF)) <= 20)%nat ∧
    ((String.length value <= 19)%nat ->
     snprintf (VALUE_MAX + 1) (value +:+ LF) = value +:+ LF) ∧
    ((20 <= String.length value)%nat ->
     snprintf (VALUE_MAX + 1) (value +:+ LF) = String.substring 0 20 value)).
  { split; [|split].
    - unfold snprintf, VALUE_MAX. rewrite substring_length. lia.
    - apply snprintf_line.
    - intros Hlen. unfold snprintf, VALUE_MAX. by apply substring_append_short. }
  destruct Htext as (Hmax & Hshort & Hlong).
  destruct (Z.eqb_spec (returns (S (S (calls s))))
              (Z.of_nat (String.length (snprintf (VALUE_MAX + 1) (value +:+ LF)))))
    as [Hw|Hw]; cbn [negb].
  2:{ cbn [events_of value_of fst snd]. split; [in_list|].
      split; [|done].
      intros fd' d Hin. rewrite ?elem_of_cons, ?elem_of_nil in Hin.
      repeat (destruct Hin as [Hin|Hin]; [by simplify_eq|]). done. }
  destruct (returns (S (S (S (calls s)))) =? 0); cbn [negb events_of value_of fst snd].
  all: split; [in_list|]; split; [|done].
  all: intros fd' d Hin; rewrite ?elem_of_cons, ?elem_of_nil in Hin.
  all: repeat (destruct Hin as [Hin|Hin]; [by simplify_eq|]); done.
Qed.

Lemma write_data_buffer_witness :
  ∃ data,
    Ev_write 3 data ∈ events_of (write_data all_zero 3 "412" initial_state) ∧
    data = "412" +:+ LF.
Proof.
  destruct (write_data_buffer all_zero 3 "412" initial_state eq_refl eq_refl)
    as (data & Hin & _ & _ & Hshort & _).
  exists data. split; [exact Hin|]. apply Hshort. cbn. lia.
Defined.
